(** * Feature building for GLUE-style tasks: [examples/utils_glue.py]

    A shallow embedding of [convert_examples_to_features] and
    [_truncate_seq_pair].  Python lists are Rocq lists, Python ints are [Z],
    the [label_map] dict is a [gmap string nat], Python floats are primitive
    floats, exceptions are values of [exn], and the calls to the tokenizer and
    to the logger are recorded, in order, in a trace of [event]s. *)

From Stdlib Require Import ZArith PrimFloat Ascii String.
From stdpp Require Import base list strings gmap pretty.

Local Open Scope Z_scope.

(** ** Python values and exceptions *)

(** The exceptions the two functions can raise. *)
Inductive exn : Type :=
  | KeyError (key : option string)   (* [d[k]] on a missing key; [raise KeyError(output_mode)] *)
  | ValueError (arg : string)        (* [float(s)] on a string [s] that is not a number;
                                        ["%d" % x] on a NaN [x], with ["nan"] *)
  | OverflowError                    (* ["%d" % x] on an infinite [x] *)
  | TypeError                        (* [float(None)] *)
  | AssertionError                   (* a failed [assert] *)
  | IndexError.                      (* [[].pop()] *)

(** [l.pop()]: removes the last item; raises [IndexError] on the empty list. *)
Definition pop {A} (l : list A) : exn + list A :=
  match l with
  | [] => inl IndexError
  | _ :: _ => inr (removelast l)
  end.

(** [l[:k]] for a Python int [k]: a negative [k] counts from the end. *)
Definition slice_to {A} (l : list A) (k : Z) : list A :=
  if k <? 0 then take (Z.to_nat (Z.of_nat (length l) + k)) l
  else take (Z.to_nat k) l.

(** [[x] * n]: the empty list when [n] is negative. *)
Definition py_repeat {A} (x : A) (n : Z) : list A := replicate (Z.to_nat n) x.

(** [len(l)] as a Python int. *)
Definition len {A} (l : list A) : Z := Z.of_nat (length l).

(** ** [_truncate_seq_pair] *)

Section Truncate.
Context {A : Type}.

(** What one pass through the body of [while True:] does. *)
Inductive iteration : Type :=
  | Break                                  (* [break] *)
  | Continue (tokens_a tokens_b : list A)  (* fall through to the next pass *)
  | Raise (e : exn).

Definition truncate_body (tokens_a tokens_b : list A) (max_length : Z) : iteration :=
  let total_length := len tokens_a + len tokens_b in
  if total_length <=? max_length then Break
  else if len tokens_a >? len tokens_b then
    match pop tokens_a with
    | inr tokens_a' => Continue tokens_a' tokens_b
    | inl e => Raise e
    end
  else
    match pop tokens_b with
    | inr tokens_b' => Continue tokens_a tokens_b'
    | inl e => Raise e
    end.

(** The loop, run for at most [fuel] passes; [None] when they do not
    suffice. *)
Fixpoint truncate_loop (fuel : nat) (tokens_a tokens_b : list A) (max_length : Z)
  : option (exn + list A * list A) :=
  match fuel with
  | O => None
  | S fuel' =>
      match truncate_body tokens_a tokens_b max_length with
      | Break => Some (inr (tokens_a, tokens_b))
      | Continue tokens_a' tokens_b' => truncate_loop fuel' tokens_a' tokens_b' max_length
      | Raise e => Some (inl e)
      end
  end.

(** What the two lists, which [pop] mutates in place, hold after at most
    [fuel] passes.  A pass that breaks or raises leaves them as they are
    ([pop] of an empty list removes nothing), so this is also what the
    caller's lists hold once the loop has ended with an exception. *)
Fixpoint truncate_lists (fuel : nat) (tokens_a tokens_b : list A) (max_length : Z)
  : list A * list A :=
  match fuel with
  | O => (tokens_a, tokens_b)
  | S fuel' =>
      match truncate_body tokens_a tokens_b max_length with
      | Continue tokens_a' tokens_b' => truncate_lists fuel' tokens_a' tokens_b' max_length
      | Break | Raise _ => (tokens_a, tokens_b)
      end
  end.

(** The lists are mutated in place; the function returns their final
    contents.  Every pass but the last removes one item, so
    [length tokens_a + length tokens_b + 1] passes always suffice
    ([truncate_loop_enough] below) and the default is never taken. *)
Definition _truncate_seq_pair (tokens_a tokens_b : list A) (max_length : Z)
  : exn + list A * list A :=
  default (inl IndexError)
    (truncate_loop (S (length tokens_a + length tokens_b)) tokens_a tokens_b max_length).

End Truncate.
Arguments iteration : clear implicits.

(** The rule in the words of the specification: as long as the two lists
    together are longer than [m], the last item of the longer one goes, and
    on a tie the last item of the second. *)
Inductive truncation_rule {A} (m : Z) : list A → list A → list A → list A → Prop :=
  | rule_fits a b :
      len a + len b ≤ m → truncation_rule m a b a b
  | rule_shorten_a a b x a' b' :
      m < len (a ++ [x]) + len b → len b < len (a ++ [x]) →
      truncation_rule m a b a' b' → truncation_rule m (a ++ [x]) b a' b'
  | rule_shorten_b a b x a' b' :
      m < len a + len (b ++ [x]) → len a ≤ len (b ++ [x]) →
      truncation_rule m a b a' b' → truncation_rule m a (b ++ [x]) a' b'.

(** ** Records of the module *)

Record InputExample : Type := {
  guid : string;
  text_a : string;
  text_b : option string;   (* [None] by default *)
  label : option string     (* [None] by default *)
}.

(** [label_id] is an index into [label_list] (classification) or a float
    (regression). *)
Inductive label_value : Type :=
  | LabelIndex (i : nat)
  | LabelFloat (x : float).

Record InputFeatures : Type := {
  input_ids : list Z;
  input_mask : list Z;
  segment_ids : list Z;
  label_id : label_value;
  epa_vec : list float
}.

(** The keyword arguments of [convert_examples_to_features]. *)
Record Config : Type := {
  cls_token_at_end : bool;
  cls_token : string;
  cls_token_segment_id : Z;
  sep_token : string;
  sep_token_extra : bool;
  pad_on_left : bool;
  pad_token : Z;
  pad_token_segment_id : Z;
  sequence_a_segment_id : Z;
  sequence_b_segment_id : Z;
  mask_padding_with_zero : bool
}.

(** Their default values. *)
Definition default_config : Config := {|
  cls_token_at_end := false;
  cls_token := "[CLS]";
  cls_token_segment_id := 1;
  sep_token := "[SEP]";
  sep_token_extra := false;
  pad_on_left := false;
  pad_token := 0;
  pad_token_segment_id := 0;
  sequence_a_segment_id := 0;
  sequence_b_segment_id := 1;
  mask_padding_with_zero := true
|}.

(** The tokenizer is not part of the module.  It is called in three ways:
    [tokenizer.tokenize(text_a, epa_infos)], whose result is unpacked as a
    pair; [tokenizer.tokenize(text_b)], whose result is used as a list of
    tokens; and [tokenizer.convert_tokens_to_ids(tokens)]. *)
Record Tokenizer (EpaInfos : Type) : Type := {
  tokenize_epa : string -> option EpaInfos -> list string * list float;
  tokenize : string -> list string;
  convert_tokens_to_ids : list string -> list Z
}.
Arguments tokenize_epa {EpaInfos}.
Arguments tokenize {EpaInfos}.
Arguments convert_tokens_to_ids {EpaInfos}.

(** ** Effects: a trace of calls, and exceptions *)

(** The records passed to [logger.info], before formatting. *)
Inductive log_record : Type :=
  | WritingExample (ex_index n_examples : nat)
  | ExampleBanner
  | LogGuid (g : string)
  | LogTokens (tokens : list string)
  | LogInputIds (ids : list Z)
  | LogInputMask (mask : list Z)
  | LogSegmentIds (ids : list Z)
  | LogLabel (l : option string) (id : label_value).

Inductive event : Type :=
  | CallTokenizeEpa (text : string)
  | CallTokenize (text : string)
  | CallConvertTokensToIds (tokens : list string)
  | LoggerInfo (r : log_record).

(** A computation: the events it performed, in order, and then either the
    exception that ended it or its value. *)
Definition M (A : Type) : Type := list event * (exn + A).

#[export] Instance M_ret : MRet M := λ A x, ([], inr x).
#[export] Instance M_bind : MBind M := λ A B f m,
  match m with
  | (tr, inl e) => (tr, inl e)
  | (tr, inr x) => let '(tr', r) := f x in (tr ++ tr', r)
  end.

Definition raise {A} (e : exn) : M A := ([], inl e).
Definition emit (ev : event) : M () := ([ev], inr ()).
Definition lift {A} (r : exn + A) : M A := ([], r).
Definition py_assert (b : bool) : M () := if b then mret () else raise AssertionError.
Definition when (b : bool) (m : M ()) : M () := if b then m else mret ().

Definition trace {A} (m : M A) : list event := m.1.
Definition outcome {A} (m : M A) : exn + A := m.2.

(** ** [convert_examples_to_features] *)

(** [enumerate(l)], counting from [start]. *)
Fixpoint enumerate_from {A} (start : nat) (l : list A) : list (nat * A) :=
  match l with
  | [] => []
  | x :: l' => (start, x) :: enumerate_from (S start) l'
  end.
Definition enumerate {A} (l : list A) : list (nat * A) := enumerate_from 0 l.

(** [{label : i for i, label in enumerate(label_list)}]: the items are
    inserted in order, so a later duplicate overwrites an earlier one. *)
Definition fill_label_map (m : gmap string nat) (items : list (nat * string))
  : gmap string nat :=
  foldl (λ m '(i, label), <[label := i]> m) m items.
Definition make_label_map (label_list : list string) : gmap string nat :=
  fill_label_map ∅ (enumerate label_list).

(** [if example.text_b:] holds for a string that is not empty. *)
Definition truthy_text (t : option string) : option string :=
  match t with
  | Some s => if decide (s = "") then None else Some s
  | None => None
  end.

(** [if tokens_b:] holds for a list that is not empty. *)
Definition truthy_list {A} (l : option (list A)) : option (list A) :=
  match l with
  | Some (x :: l') => Some (x :: l')
  | _ => None
  end.

Section Convert.
Context {EpaInfos : Type}.
(** Python's builtin [float] on a string: [None] where it raises
    [ValueError]. *)
Variable float_of_string : string -> option float.
Variable label_list : list string.
Variable max_seq_length : Z.
Variable tokenizer : Tokenizer EpaInfos.
Variable output_mode : string.
Variable cfg : Config.
Variable epa_infos : option EpaInfos.

(** Lines 849-864: tokenize, then truncate.  In the pair branch
    [_truncate_seq_pair] changes [tokens_a] and [tokens_b] in place and
    [epa_vec] is left as the tokenizer returned it. *)
Definition tokenize_and_truncate (example : InputExample)
  : M (list string * option (list string) * list float) :=
  _ ← emit (CallTokenizeEpa (text_a example));
  let '(tokens_a, epa_vec) := tokenize_epa tokenizer (text_a example) epa_infos in
  match truthy_text (text_b example) with
  | Some text_b =>
      _ ← emit (CallTokenize text_b);
      let tokens_b := tokenize tokenizer text_b in
      let special_tokens_count := if sep_token_extra cfg then 4 else 3 in
      '(tokens_a, tokens_b) ←
        lift (_truncate_seq_pair tokens_a tokens_b (max_seq_length - special_tokens_count));
      mret (tokens_a, Some tokens_b, epa_vec)
  | None =>
      let special_tokens_count := if sep_token_extra cfg then 3 else 2 in
      if len tokens_a >? max_seq_length - special_tokens_count then
        mret (slice_to tokens_a (max_seq_length - special_tokens_count), None,
              slice_to epa_vec (max_seq_length - special_tokens_count))
      else mret (tokens_a, None, epa_vec)
  end.

(** Lines 884-903: separators, segment ids and the class token. *)
Definition assemble (tokens_a : list string) (tokens_b : option (list string))
    (epa_vec : list float) : list string * list float * list Z :=
  let tokens := tokens_a ++ [sep_token cfg] in
  let epa_vec := epa_vec ++ [1.0%float] in
  let '(tokens, epa_vec) :=
    if sep_token_extra cfg
    then (tokens ++ [sep_token cfg], epa_vec ++ [1.0%float])
    else (tokens, epa_vec) in
  let segment_ids := py_repeat (sequence_a_segment_id cfg) (len tokens) in
  let '(tokens, segment_ids) :=
    match truthy_list tokens_b with
    | Some tokens_b =>
        (tokens ++ (tokens_b ++ [sep_token cfg]),
         segment_ids ++ py_repeat (sequence_b_segment_id cfg) (len tokens_b + 1))
    | None => (tokens, segment_ids)
    end in
  if cls_token_at_end cfg
  then (tokens ++ [cls_token cfg], epa_vec ++ [1.0%float],
        segment_ids ++ [cls_token_segment_id cfg])
  else ([cls_token cfg] ++ tokens, [1.0%float] ++ epa_vec,
        [cls_token_segment_id cfg] ++ segment_ids).

(** [1 if mask_padding_with_zero else 0] and [0 if mask_padding_with_zero
    else 1]. *)
Definition real_mask : Z := if mask_padding_with_zero cfg then 1 else 0.
Definition pad_mask : Z := if mask_padding_with_zero cfg then 0 else 1.

(** Lines 909-922: the mask, and the padding of the four lists. *)
Definition pad (input_ids : list Z) (segment_ids : list Z) (epa_vec : list float)
  : list Z * list Z * list Z * list float :=
  let input_mask := py_repeat real_mask (len input_ids) in
  let padding_length := max_seq_length - len input_ids in
  if pad_on_left cfg then
    (py_repeat (pad_token cfg) padding_length ++ input_ids,
     py_repeat pad_mask padding_length ++ input_mask,
     py_repeat (pad_token_segment_id cfg) padding_length ++ segment_ids,
     py_repeat 0.0%float padding_length ++ epa_vec)
  else
    (input_ids ++ py_repeat (pad_token cfg) padding_length,
     input_mask ++ py_repeat pad_mask padding_length,
     segment_ids ++ py_repeat (pad_token_segment_id cfg) padding_length,
     epa_vec ++ py_repeat 0.0%float padding_length).

(** Lines 924-927: the four assertions, in order. *)
Definition check_lengths (input_ids input_mask segment_ids : list Z)
    (epa_vec : list float) : M () :=
  _ ← py_assert (len input_ids =? max_seq_length);
  _ ← py_assert (len input_mask =? max_seq_length);
  _ ← py_assert (len segment_ids =? max_seq_length);
  py_assert (len epa_vec =? max_seq_length).

(** Lines 929-934: the label. *)
Definition resolve_label (label_map : gmap string nat) (l : option string)
  : exn + label_value :=
  if decide (output_mode = "classification") then
    match l with
    | Some s =>
        match label_map !! s with
        | Some i => inr (LabelIndex i)
        | None => inl (KeyError (Some s))
        end
    | None => inl (KeyError None)
    end
  else if decide (output_mode = "regression") then
    match l with
    | Some s =>
        match float_of_string s with
        | Some x => inr (LabelFloat x)
        | None => inl (ValueError s)
        end
    | None => inl TypeError
    end
  else inl (KeyError (Some output_mode)).

(** ["... %d" % label_id] on line 944: an index is printed as it is; a
    float is first converted to an integer, which raises [ValueError] for a
    NaN and [OverflowError] for an infinity. *)
Definition percent_d (label_id : label_value) : exn + () :=
  match label_id with
  | LabelIndex _ => inr ()
  | LabelFloat x =>
      if PrimFloat.is_nan x then inl (ValueError "nan")
      else if PrimFloat.is_infinity x then inl OverflowError
      else inr ()
  end.

(** Lines 936-944: the report on each of the first five examples.  The
    last message is formatted, and can fail, after the first six calls of
    [logger.info]. *)
Definition log_example (example : InputExample) (tokens : list string)
    (input_ids input_mask segment_ids : list Z) (label_id : label_value) : M () :=
  _ ← emit (LoggerInfo ExampleBanner);
  _ ← emit (LoggerInfo (LogGuid (guid example)));
  _ ← emit (LoggerInfo (LogTokens tokens));
  _ ← emit (LoggerInfo (LogInputIds input_ids));
  _ ← emit (LoggerInfo (LogInputMask input_mask));
  _ ← emit (LoggerInfo (LogSegmentIds segment_ids));
  _ ← lift (percent_d label_id);
  emit (LoggerInfo (LogLabel (label example) label_id)).

(** The body of [for (ex_index, example) in enumerate(examples):] up to
    line 927: the token list and the four lists that passed the
    assertions. *)
Definition encode_example (n_examples : nat) (ex_index : nat) (example : InputExample)
  : M (list string * list Z * list Z * list Z * list float) :=
  _ ← when (Z.of_nat ex_index `mod` 10000 =? 0)
        (emit (LoggerInfo (WritingExample ex_index n_examples)));
  '(tokens_a, tokens_b, epa_vec) ← tokenize_and_truncate example;
  let '(tokens, epa_vec, segment_ids) := assemble tokens_a tokens_b epa_vec in
  _ ← emit (CallConvertTokensToIds tokens);
  let input_ids := convert_tokens_to_ids tokenizer tokens in
  let '(input_ids, input_mask, segment_ids, epa_vec) := pad input_ids segment_ids epa_vec in
  _ ← check_lengths input_ids input_mask segment_ids epa_vec;
  mret (tokens, input_ids, input_mask, segment_ids, epa_vec).

(** The whole body: the feature that is appended. *)
Definition convert_example (label_map : gmap string nat) (n_examples : nat)
    (ex_index : nat) (example : InputExample) : M InputFeatures :=
  '(tokens, input_ids, input_mask, segment_ids, epa_vec) ←
    encode_example n_examples ex_index example;
  label_id ← lift (resolve_label label_map (label example));
  _ ← when (Z.of_nat ex_index <? 5)
        (log_example example tokens input_ids input_mask segment_ids label_id);
  mret {| input_ids := input_ids; input_mask := input_mask; segment_ids := segment_ids;
          label_id := label_id; epa_vec := epa_vec |}.

(** The [for] loop: [features.append] on each pass. *)
Fixpoint convert_loop (label_map : gmap string nat) (n_examples : nat)
    (todo : list (nat * InputExample)) (features : list InputFeatures)
  : M (list InputFeatures) :=
  match todo with
  | [] => mret features
  | (ex_index, example) :: todo' =>
      f ← convert_example label_map n_examples ex_index example;
      convert_loop label_map n_examples todo' (features ++ [f])
  end.

Definition convert_examples_to_features (examples : list InputExample)
  : M (list InputFeatures) :=
  let label_map := make_label_map label_list in
  convert_loop label_map (length examples) (enumerate examples) [].

End Convert.

(** ** A whitespace tokenizer, for the scenarios *)

(** Splits at single spaces; every token gets the weight [1.0] and, as its
    id, its length. *)
Fixpoint split_spaces (acc : string) (s : string) : list string :=
  match s with
  | EmptyString => if decide (acc = "") then [] else [acc]
  | String c s' =>
      if decide (c = " "%char)
      then (if decide (acc = "") then [] else [acc]) ++ split_spaces "" s'
      else split_spaces (acc +:+ String c EmptyString) s'
  end.

Definition whitespace_tokenizer : Tokenizer () := {|
  tokenize_epa text _ :=
    let tokens := split_spaces "" text in (tokens, (λ _, 1.0%float) <$> tokens);
  tokenize text := split_spaces "" text;
  convert_tokens_to_ids tokens := (λ t, Z.of_nat (String.length t)) <$> tokens
|}.

(** A [float] for the regression scenarios: only ["0.5"] and ["1.0"] are
    read. *)
Definition toy_float (s : string) : option float :=
  if decide (s = "0.5") then Some 0.5%float
  else if decide (s = "1.0") then Some 1.0%float
  else None.


(** The examples and configurations of the scenarios. *)
Definition example_pair : InputExample :=
  {| guid := "dev-1"; text_a := "a b c"; text_b := Some "d e"; label := Some "1" |}.
Definition example_single : InputExample :=
  {| guid := "dev-2"; text_a := "a b c"; text_b := None; label := Some "1" |}.
Definition example_long : InputExample :=
  {| guid := "dev-3"; text_a := "a b c d e f g h i j k"; text_b := None; label := Some "0" |}.

Definition pad_left_config : Config := {|
  cls_token_at_end := false;
  cls_token := "[CLS]";
  cls_token_segment_id := 1;
  sep_token := "[SEP]";
  sep_token_extra := false;
  pad_on_left := true;
  pad_token := 0;
  pad_token_segment_id := 0;
  sequence_a_segment_id := 0;
  sequence_b_segment_id := 1;
  mask_padding_with_zero := true
|}.

(** The XLNet layout: class token last, padding first, segment id 2 for the
    class token and 4 for the padding. *)
Definition xlnet_config : Config := {|
  cls_token_at_end := true;
  cls_token := "<cls>";
  cls_token_segment_id := 2;
  sep_token := "<sep>";
  sep_token_extra := false;
  pad_on_left := true;
  pad_token := 0;
  pad_token_segment_id := 4;
  sequence_a_segment_id := 0;
  sequence_b_segment_id := 1;
  mask_padding_with_zero := true
|}.

(** The scenarios run the function with the whitespace tokenizer, the label
    list [["0"; "1"]] and no [epa_infos]. *)
Definition scenario_run (output_mode : string) (cfg : Config) (max_seq_length : Z)
    (examples : list InputExample) : M (list InputFeatures) :=
  convert_examples_to_features toy_float ["0"; "1"] max_seq_length whitespace_tokenizer
    output_mode cfg None examples.

(** What the default configuration makes of [example_single] and
    [example_long] in 8 positions. *)
Definition features_single : InputFeatures := {|
  input_ids := [5; 1; 1; 1; 5; 0; 0; 0];
  input_mask := [1; 1; 1; 1; 1; 0; 0; 0];
  segment_ids := [1; 0; 0; 0; 0; 0; 0; 0];
  label_id := LabelIndex 1;
  epa_vec := [1; 1; 1; 1; 1; 0; 0; 0]%float
|}.
Definition features_long : InputFeatures := {|
  input_ids := [5; 1; 1; 1; 1; 1; 1; 5];
  input_mask := [1; 1; 1; 1; 1; 1; 1; 1];
  segment_ids := [1; 0; 0; 0; 0; 0; 0; 0];
  label_id := LabelIndex 0;
  epa_vec := [1; 1; 1; 1; 1; 1; 1; 1]%float
|}.

(** The inverted mask convention, with padding on the left, and what it
    makes of [example_single] in 8 positions. *)
Definition inverted_mask_config : Config := {|
  cls_token_at_end := false;
  cls_token := "[CLS]";
  cls_token_segment_id := 1;
  sep_token := "[SEP]";
  sep_token_extra := false;
  pad_on_left := true;
  pad_token := 0;
  pad_token_segment_id := 0;
  sequence_a_segment_id := 0;
  sequence_b_segment_id := 1;
  mask_padding_with_zero := false
|}.
Definition features_inverted : InputFeatures := {|
  input_ids := [0; 0; 0; 5; 1; 1; 1; 5];
  input_mask := [1; 1; 1; 0; 0; 0; 0; 0];
  segment_ids := [0; 0; 0; 1; 0; 0; 0; 0];
  label_id := LabelIndex 1;
  epa_vec := [0; 0; 0; 1; 1; 1; 1; 1]%float
|}.

(** What [xlnet_config] and [pad_left_config] make of [example_single] in 8
    positions. *)
Definition features_xlnet : InputFeatures := {|
  input_ids := [0; 0; 0; 1; 1; 1; 5; 5];
  input_mask := [0; 0; 0; 1; 1; 1; 1; 1];
  segment_ids := [4; 4; 4; 0; 0; 0; 0; 2];
  label_id := LabelIndex 1;
  epa_vec := [0; 0; 0; 1; 1; 1; 1; 1]%float
|}.
Definition features_pad_left : InputFeatures := {|
  input_ids := [0; 0; 0; 5; 1; 1; 1; 5];
  input_mask := [0; 0; 0; 1; 1; 1; 1; 1];
  segment_ids := [0; 0; 0; 1; 0; 0; 0; 0];
  label_id := LabelIndex 1;
  epa_vec := [0; 0; 0; 1; 1; 1; 1; 1]%float
|}.


(** ** The dataset processors *)

(** [l[k]] for a Python int [k]: a negative [k] counts from the end, and
    an index outside the list raises [IndexError]. *)
Definition py_index {A} (l : list A) (k : Z) : exn + A :=
  let i := if k <? 0 then len l + k else k in
  if i <? 0 then inl IndexError
  else match l !! Z.to_nat i with
       | Some x => inr x
       | None => inl IndexError
       end.

#[export] Instance exn_ret : MRet (sum exn) := λ A x, inr x.
#[export] Instance exn_bind : MBind (sum exn) := λ A B f r,
  match r with
  | inl e => inl e
  | inr x => f x
  end.

(** What [_create_examples] can raise: an exception of [exn], or the
    [UnboundLocalError] of reading a local variable that no assignment has
    reached. *)
Inductive proc_exn : Type :=
  | Py (e : exn)
  | UnboundLocalError (name : string).

(** What [print] wrote. *)
Inductive printed : Type :=
  | PrintInt (i : nat)
  | PrintLine (line : list string).

(** A run of [_create_examples]: what it printed, and how it ended. *)
Definition created : Type := list printed * (proc_exn + list InputExample).

(** ["%s-%s" % (set_type, x)], for [x] already a string. *)
Definition guid_of (set_type x : string) : string := set_type +:+ "-" +:+ x.

(** The interface of [DataProcessor], without the methods that read
    files. *)
Record DataProcessor : Type := {
  get_labels : list (option string);
  _create_examples : list (list string) → string → created
}.

(** The loop of the processors that print nothing and keep no variable
    from one line to the next: [row] is the loop body, [None] its
    [continue]. *)
Fixpoint rows_loop (row : nat → list string → exn + option InputExample)
    (todo : list (nat * list string)) (examples : list InputExample)
  : exn + list InputExample :=
  match todo with
  | [] => inr examples
  | (i, line) :: todo' =>
      match row i line with
      | inl e => inl e
      | inr None => rows_loop row todo' examples
      | inr (Some example) => rows_loop row todo' (examples ++ [example])
      end
  end.

Definition quiet (r : exn + list InputExample) : created :=
  ([], match r with inl e => inl (Py e) | inr examples => inr examples end).

Definition create_by_rows (row : string → nat → list string → exn + option InputExample)
    (lines : list (list string)) (set_type : string) : created :=
  quiet (rows_loop (row set_type) (enumerate lines) []).

(** The loop of [RelationProcessor._create_examples], which
    [SemEval5Processor], [CironProcessor], [TwitterProcessor],
    [TrecProcessor], [SubjProcessor], [Ssst2Processor], [Spr2018Processor],
    [MrProcessor], [LiarProcessor] and [AirrecordProcessor] repeat word for
    word.  [v_text_a] and [v_label] are the local variables [text_a] and
    [label]: [None] while unbound, and left as they are when a bare
    [except] swallows the [IndexError] of [line[0]] or [line[1]]. *)
Fixpoint exp_loop (set_type : string) (todo : list (nat * list string))
    (v_text_a v_label : option string) (examples : list InputExample) : created :=
  match todo with
  | [] => ([], inr examples)
  | (i, line) :: todo' =>
      if (i =? 0)%nat then exp_loop set_type todo' v_text_a v_label examples
      else
        let guid := guid_of set_type (pretty i) in
        let '(out_a, v_text_a) :=
          match py_index line 0 with
          | inr x => ([], Some x)
          | inl _ => ([PrintInt i; PrintLine line], v_text_a)
          end in
        let '(out_l, v_label) :=
          match py_index line 1 with
          | inr x => ([], Some x)
          | inl _ => ([PrintInt i; PrintLine line], v_label)
          end in
        match v_text_a, v_label with
        | Some t, Some l =>
            let '(out, r) :=
              exp_loop set_type todo' v_text_a v_label
                (examples ++ [{| guid := guid; text_a := t; text_b := None;
                                 label := Some l |}]) in
            (out_a ++ out_l ++ out, r)
        | None, _ => (out_a ++ out_l, inl (UnboundLocalError "text_a"))
        | Some _, None => (out_a ++ out_l, inl (UnboundLocalError "label"))
        end
  end.

Definition exp_create_examples (lines : list (list string)) (set_type : string) : created :=
  exp_loop set_type (enumerate lines) None None [].

Definition text_labels (l : list string) : list (option string) := Some <$> l.

Definition RelationProcessor : DataProcessor := {|
  get_labels := text_labels ["advise"; "effect"; "int"; "mechanism"; "NAN"];
  _create_examples := exp_create_examples |}.
Definition SemEval5Processor : DataProcessor := {|
  get_labels := text_labels ["0"; "1"];
  _create_examples := exp_create_examples |}.
Definition CironProcessor : DataProcessor := {|
  get_labels := text_labels ["1"; "2"; "3"; "4"; "5"];
  _create_examples := exp_create_examples |}.
Definition TwitterProcessor : DataProcessor := {|
  get_labels := text_labels ["0"; "1"];
  _create_examples := exp_create_examples |}.
Definition TrecProcessor : DataProcessor := {|
  get_labels := text_labels ["0"; "1"; "2"; "3"; "4"; "5"];
  _create_examples := exp_create_examples |}.
Definition SubjProcessor : DataProcessor := {|
  get_labels := text_labels ["0"; "1"];
  _create_examples := exp_create_examples |}.
Definition Ssst2Processor : DataProcessor := {|
  get_labels := text_labels ["0"; "1"];
  _create_examples := exp_create_examples |}.
Definition Spr2018Processor : DataProcessor := {|
  get_labels := text_labels ["0"; "1"];
  _create_examples := exp_create_examples |}.
Definition MrProcessor : DataProcessor := {|
  get_labels := text_labels ["0"; "1"];
  _create_examples := exp_create_examples |}.
Definition LiarProcessor : DataProcessor := {|
  get_labels := text_labels ["0"; "1"; "2"; "3"; "4"; "5"];
  _create_examples := exp_create_examples |}.
Definition AirrecordProcessor : DataProcessor := {|
  get_labels := text_labels ["0"; "1"; "2"];
  _create_examples := exp_create_examples |}.

(** The loop bodies of the GLUE processors. *)
Definition mrpc_row (set_type : string) (i : nat) (line : list string)
  : exn + option InputExample :=
  if (i =? 0)%nat then inr None
  else
    let guid := guid_of set_type (pretty i) in
    text_a ← py_index line 3;
    text_b ← py_index line 4;
    label ← py_index line 0;
    mret (Some {| guid := guid; text_a := text_a; text_b := Some text_b;
                  label := Some label |}).

Definition mnli_row (set_type : string) (i : nat) (line : list string)
  : exn + option InputExample :=
  if (i =? 0)%nat then inr None
  else
    guid ← (x ← py_index line 0; mret (guid_of set_type x));
    text_a ← py_index line 8;
    text_b ← py_index line 9;
    label ← py_index line (-1);
    mret (Some {| guid := guid; text_a := text_a; text_b := Some text_b;
                  label := Some label |}).

Definition cola_row (set_type : string) (i : nat) (line : list string)
  : exn + option InputExample :=
  let guid := guid_of set_type (pretty i) in
  text_a ← py_index line 3;
  label ← py_index line 1;
  mret (Some {| guid := guid; text_a := text_a; text_b := None; label := Some label |}).

Definition sst2_row (set_type : string) (i : nat) (line : list string)
  : exn + option InputExample :=
  if (i =? 0)%nat then inr None
  else
    let guid := guid_of set_type (pretty i) in
    text_a ← py_index line 0;
    label ← py_index line 1;
    mret (Some {| guid := guid; text_a := text_a; text_b := None; label := Some label |}).

Definition stsb_row (set_type : string) (i : nat) (line : list string)
  : exn + option InputExample :=
  if (i =? 0)%nat then inr None
  else
    guid ← (x ← py_index line 0; mret (guid_of set_type x));
    text_a ← py_index line 7;
    text_b ← py_index line 8;
    label ← py_index line (-1);
    mret (Some {| guid := guid; text_a := text_a; text_b := Some text_b;
                  label := Some label |}).

(** [QqpProcessor]: the three columns are read under [try], and
    [except IndexError: continue] drops the line; the guid is read before the
    [try]. *)
Definition qqp_row (set_type : string) (i : nat) (line : list string)
  : exn + option InputExample :=
  if (i =? 0)%nat then inr None
  else
    guid ← (x ← py_index line 0; mret (guid_of set_type x));
    match (text_a ← py_index line 3;
           text_b ← py_index line 4;
           label ← py_index line 5;
           mret (text_a, text_b, label)) with
    | inl IndexError => inr None
    | inl e => inl e
    | inr (text_a, text_b, label) =>
        inr (Some {| guid := guid; text_a := text_a; text_b := Some text_b;
                     label := Some label |})
    end.

(** [QnliProcessor], [RteProcessor] and [WnliProcessor] have one loop
    body. *)
Definition qnli_row (set_type : string) (i : nat) (line : list string)
  : exn + option InputExample :=
  if (i =? 0)%nat then inr None
  else
    guid ← (x ← py_index line 0; mret (guid_of set_type x));
    text_a ← py_index line 1;
    text_b ← py_index line 2;
    label ← py_index line (-1);
    mret (Some {| guid := guid; text_a := text_a; text_b := Some text_b;
                  label := Some label |}).

Definition MrpcProcessor : DataProcessor := {|
  get_labels := text_labels ["0"; "1"];
  _create_examples := create_by_rows mrpc_row |}.
Definition MnliProcessor : DataProcessor := {|
  get_labels := text_labels ["contradiction"; "entailment"; "neutral"];
  _create_examples := create_by_rows mnli_row |}.
(** [MnliMismatchedProcessor] inherits both methods from [MnliProcessor]. *)
Definition MnliMismatchedProcessor : DataProcessor := {|
  get_labels := get_labels MnliProcessor;
  _create_examples := _create_examples MnliProcessor |}.
Definition ColaProcessor : DataProcessor := {|
  get_labels := text_labels ["0"; "1"];
  _create_examples := create_by_rows cola_row |}.
Definition Sst2Processor : DataProcessor := {|
  get_labels := text_labels ["0"; "1"];
  _create_examples := create_by_rows sst2_row |}.
Definition StsbProcessor : DataProcessor := {|
  get_labels := [None];
  _create_examples := create_by_rows stsb_row |}.
Definition QqpProcessor : DataProcessor := {|
  get_labels := text_labels ["0"; "1"];
  _create_examples := create_by_rows qqp_row |}.
Definition QnliProcessor : DataProcessor := {|
  get_labels := text_labels ["entailment"; "not_entailment"];
  _create_examples := create_by_rows qnli_row |}.
Definition RteProcessor : DataProcessor := {|
  get_labels := text_labels ["entailment"; "not_entailment"];
  _create_examples := create_by_rows qnli_row |}.
Definition WnliProcessor : DataProcessor := {|
  get_labels := text_labels ["0"; "1"];
  _create_examples := create_by_rows qnli_row |}.

(** Lines for the scenarios of the processors: a header, a complete
    line, a line without columns, a line with one column, a complete line;
    and what [TrecProcessor] prints and returns on them. *)
Definition lines_with_gaps : list (list string) :=
  [["text"; "label"]; ["good"; "1"]; []; ["x"]; ["y"; "0"]].
Definition printed_with_gaps : list printed :=
  [PrintInt 2; PrintLine []; PrintInt 2; PrintLine []; PrintInt 3; PrintLine ["x"]].
Definition examples_with_gaps : list InputExample := [
  {| guid := "train-1"; text_a := "good"; text_b := None; label := Some "1" |};
  {| guid := "train-2"; text_a := "good"; text_b := None; label := Some "1" |};
  {| guid := "train-3"; text_a := "x"; text_b := None; label := Some "1" |};
  {| guid := "train-4"; text_a := "y"; text_b := None; label := Some "0" |}].

(** The processors whose [_create_examples] is the loop of
    [RelationProcessor]. *)
Definition exp_processors : list DataProcessor := [
  RelationProcessor; SemEval5Processor; CironProcessor; TwitterProcessor;
  TrecProcessor; SubjProcessor; Ssst2Processor; Spr2018Processor; MrProcessor;
  LiarProcessor; AirrecordProcessor].

(** The processors that skip the first line and index every other line
    without a [try], each with the number of columns its indices reach. *)
Definition indexing_processors : list (DataProcessor * nat) := [
  (MrpcProcessor, 5); (MnliProcessor, 10); (MnliMismatchedProcessor, 10);
  (Sst2Processor, 2); (StsbProcessor, 9); (QnliProcessor, 3); (RteProcessor, 3);
  (WnliProcessor, 3)]%nat.

(** ** The registries *)

(** A dict display [{k1: v1, k2: v2, ...}]: the items are inserted in
    order. *)
Definition dict_of {V} (items : list (string * V)) : gmap string V :=
  foldl (λ m '(k, v), <[k := v]> m) ∅ items.

Definition processors_items : list (string * DataProcessor) := [
  ("cola", ColaProcessor);
  ("mnli", MnliProcessor);
  ("mnli-mm", MnliMismatchedProcessor);
  ("relation", RelationProcessor);
  ("semeval5", SemEval5Processor);
  ("ciron", CironProcessor);
  ("mrpc", MrpcProcessor);
  ("sst-2", Sst2Processor);
  ("airrecord", AirrecordProcessor);
  ("liar", LiarProcessor);
  ("mr", MrProcessor);
  ("spr2018", Spr2018Processor);
  ("ssst2", Ssst2Processor);
  ("subj", SubjProcessor);
  ("trec", TrecProcessor);
  ("twitter", TwitterProcessor);
  ("sts-b", StsbProcessor);
  ("qqp", QqpProcessor);
  ("qnli", QnliProcessor);
  ("rte", RteProcessor);
  ("wnli", WnliProcessor)].
Definition processors : gmap string DataProcessor := dict_of processors_items.

Definition output_modes_items : list (string * string) := [
  ("cola", "classification");
  ("mnli", "classification");
  ("mnli-mm", "classification");
  ("relation", "classification");
  ("semeval5", "classification");
  ("ciron", "classification");
  ("mrpc", "classification");
  ("sst-2", "classification");
  ("airrecord", "classification");
  ("liar", "classification");
  ("mr", "classification");
  ("spr2018", "classification");
  ("ssst2", "classification");
  ("subj", "classification");
  ("trec", "classification");
  ("twitter", "classification");
  ("sts-b", "regression");
  ("qqp", "classification");
  ("qnli", "classification");
  ("rte", "classification");
  ("wnli", "classification")].
Definition output_modes : gmap string string := dict_of output_modes_items.

Definition GLUE_TASKS_NUM_LABELS_items : list (string * nat) := [
  ("cola", 2); ("mnli", 3); ("relation", 5); ("semeval5", 2); ("ciron", 5);
  ("mrpc", 2); ("sst-2", 2); ("airrecord", 3); ("liar", 6); ("mr", 2);
  ("spr2018", 2); ("subj", 2); ("ssst2", 2); ("trec", 6); ("twitter", 2);
  ("sts-b", 1); ("qqp", 2); ("qnli", 2); ("rte", 2); ("wnli", 2)]%nat.
Definition GLUE_TASKS_NUM_LABELS : gmap string nat := dict_of GLUE_TASKS_NUM_LABELS_items.

(** ** The metrics *)

(** A value of the dict that [compute_metrics] returns: a float, or for
    the task ["relation"] the whole dict of [acc_and_f1]. *)
Inductive metric_value : Type :=
  | Scalar (x : float)
  | Metrics (items : list (string * float)).

(** What [acc_and_f1] prints. *)
Inductive metric_print : Type :=
  | PrintFloat (x : float)
  | PrintStr (s : string).

Definition newline : string := String "010"%char EmptyString.

Definition scalars (d : list (string * float)) : list (string * metric_value) :=
  (λ '(k, x), (k, Scalar x)) <$> d.

Section Metrics.
(** The arrays of predictions and labels, with the functions of numpy,
    scipy and scikit-learn that the module calls on them. *)
Context {Arr : Type}.
Variable size : Arr → Z.                      (* [len(a)] *)
Variable mean_equal : Arr → Arr → float.      (* [(a == b).mean()] *)
Variable f1_score_macro : Arr → Arr → float.  (* [f1_score(y_true=a, y_pred=b, average='macro')] *)
Variable matthews_corrcoef : Arr → Arr → float.
Variable pearsonr : Arr → Arr → float.        (* [pearsonr(a, b)[0]] *)
Variable spearmanr : Arr → Arr → float.       (* [spearmanr(a, b)[0]] *)

Definition simple_accuracy (preds labels : Arr) : float := mean_equal preds labels.

Definition acc_and_f1 (preds labels : Arr) : list metric_print * list (string * float) :=
  let acc := simple_accuracy preds labels in
  let f1 := f1_score_macro labels preds in
  ([PrintFloat acc; PrintStr newline; PrintFloat f1; PrintStr newline],
   [("acc", acc); ("f1", f1); ("acc_and_f1", ((acc + f1) / 2)%float)]).

Definition pearson_and_spearman (preds labels : Arr) : list (string * float) :=
  let pearson_corr := pearsonr preds labels in
  let spearman_corr := spearmanr preds labels in
  [("pearson", pearson_corr); ("spearmanr", spearman_corr);
   ("corr", ((pearson_corr + spearman_corr) / 2)%float)].

Definition compute_metrics (task_name : string) (preds labels : Arr)
  : list metric_print * (exn + list (string * metric_value)) :=
  if negb (size preds =? size labels) then ([], inl AssertionError)
  else if decide (task_name = "cola") then
    ([], inr [("mcc", Scalar (matthews_corrcoef labels preds))])
  else if decide (task_name = "relation") then
    let '(out, d) := acc_and_f1 preds labels in (out, inr [("acc_and_f1", Metrics d)])
  else if decide (task_name = "semeval5") then
    ([], inr [("acc", Scalar (simple_accuracy preds labels))])
  else if decide (task_name = "ciron") then
    ([], inr [("acc", Scalar (simple_accuracy preds labels))])
  else if decide (task_name = "sst-2") then
    ([], inr [("acc", Scalar (simple_accuracy preds labels))])
  else if decide (task_name = "airrecord") then
    ([], inr [("acc", Scalar (simple_accuracy preds labels))])
  else if decide (task_name = "liar") then
    ([], inr [("acc", Scalar (simple_accuracy preds labels))])
  else if decide (task_name = "mr") then
    ([], inr [("acc", Scalar (simple_accuracy preds labels))])
  else if decide (task_name = "spr2018") then
    ([], inr [("acc", Scalar (simple_accuracy preds labels))])
  else if decide (task_name = "ssst2") then
    ([], inr [("acc", Scalar (simple_accuracy preds labels))])
  else if decide (task_name = "subj") then
    ([], inr [("acc", Scalar (simple_accuracy preds labels))])
  else if decide (task_name = "trec") then
    ([], inr [("acc", Scalar (simple_accuracy preds labels))])
  else if decide (task_name = "twitter") then
    ([], inr [("acc", Scalar (simple_accuracy preds labels))])
  else if decide (task_name = "mrpc") then
    let '(out, d) := acc_and_f1 preds labels in (out, inr (scalars d))
  else if decide (task_name = "sts-b") then
    ([], inr (scalars (pearson_and_spearman preds labels)))
  else if decide (task_name = "qqp") then
    let '(out, d) := acc_and_f1 preds labels in (out, inr (scalars d))
  else if decide (task_name = "mnli") then
    ([], inr [("acc", Scalar (simple_accuracy preds labels))])
  else if decide (task_name = "mnli-mm") then
    ([], inr [("acc", Scalar (simple_accuracy preds labels))])
  else if decide (task_name = "qnli") then
    ([], inr [("acc", Scalar (simple_accuracy preds labels))])
  else if decide (task_name = "rte") then
    ([], inr [("acc", Scalar (simple_accuracy preds labels))])
  else if decide (task_name = "wnli") then
    ([], inr [("acc", Scalar (simple_accuracy preds labels))])
  else ([], inl (KeyError (Some task_name))).

End Metrics.

(** * Properties *)

(** ** Python list helpers *)

Lemma len_nonneg {A} (l : list A) : 0 ≤ len l.
Proof. unfold len. lia. Qed.

Lemma len_app {A} (l k : list A) : len (l ++ k) = len l + len k.
Proof. unfold len. rewrite length_app. lia. Qed.

Lemma len_py_repeat {A} (x : A) (n : Z) : len (py_repeat x n) = Z.max 0 n.
Proof. unfold len, py_repeat. rewrite length_replicate. lia. Qed.

Lemma pop_snoc {A} (l : list A) (x : A) : pop (l ++ [x]) = inr l.
Proof.
  unfold pop. destruct (l ++ [x]) eqn:E.
  - by destruct l.
  - by rewrite <- E, removelast_last.
Qed.

Lemma pop_inr {A} (l l' : list A) : pop l = inr l' → ∃ x, l = l' ++ [x].
Proof.
  destruct l as [|y l] using rev_ind; [done|].
  rewrite pop_snoc. intros [= <-]. by exists y.
Qed.

Lemma pop_nonempty {A} (l : list A) : 0 < len l → ∃ x l', l = l' ++ [x] ∧ pop l = inr l'.
Proof.
  destruct l as [|y l _] using rev_ind; [unfold len; simpl; lia|].
  intros _. exists y, l. by rewrite pop_snoc.
Qed.

Lemma slice_to_length {A} (l : list A) (k : Z) :
  0 ≤ k → len (slice_to l k) = Z.min k (len l).
Proof.
  intros Hk. unfold slice_to, len.
  destruct (Z.ltb_spec k 0); [lia|]. rewrite length_take. lia.
Qed.

(** ** The truncation loop *)

Section TruncateFacts.
Context {A : Type}.
Implicit Types (a b : list A) (m : Z).

Lemma truncate_body_break a b m :
  len a + len b ≤ m → truncate_body a b m = Break.
Proof.
  intros H. unfold truncate_body. cbv zeta.
  by destruct (Z.leb_spec (len a + len b) m); [|lia].
Qed.

Lemma truncate_body_a a b m :
  m < len a + len b → len b < len a →
  ∃ x a', a = a' ++ [x] ∧ truncate_body a b m = Continue a' b.
Proof.
  intros Hm Hab. destruct (pop_nonempty a) as (x & a' & -> & Hpop).
  { pose proof (len_nonneg b). lia. }
  exists x, a'. split; [done|]. unfold truncate_body. cbv zeta.
  destruct (Z.leb_spec (len (a' ++ [x]) + len b) m); [lia|].
  rewrite Z.gtb_ltb. destruct (Z.ltb_spec (len b) (len (a' ++ [x]))); [|lia].
  by rewrite Hpop.
Qed.

Lemma truncate_body_b a b m :
  0 ≤ m → m < len a + len b → len a ≤ len b →
  ∃ x b', b = b' ++ [x] ∧ truncate_body a b m = Continue a b'.
Proof.
  intros H0 Hm Hab. destruct (pop_nonempty b) as (x & b' & -> & Hpop); [lia|].
  exists x, b'. split; [done|]. unfold truncate_body. cbv zeta.
  destruct (Z.leb_spec (len a + len (b' ++ [x])) m); [lia|].
  rewrite Z.gtb_ltb. destruct (Z.ltb_spec (len (b' ++ [x])) (len a)); [lia|].
  by rewrite Hpop.
Qed.

(** A pass that goes on has removed exactly one item, and only because the
    lists were too long. *)
Lemma truncate_body_continue a b m a1 b1 :
  truncate_body a b m = Continue a1 b1 →
  len a1 + len b1 = len a + len b - 1 ∧ m < len a + len b.
Proof.
  unfold truncate_body. cbv zeta.
  destruct (Z.leb_spec (len a + len b) m); [done|].
  destruct (len a >? len b).
  - destruct (pop a) as [e|a'] eqn:E; [done|]. intros [= <- <-].
    apply pop_inr in E as [x ->]. rewrite len_app in *. unfold len in *. simpl in *. lia.
  - destruct (pop b) as [e|b'] eqn:E; [done|]. intros [= <- <-].
    apply pop_inr in E as [x ->]. rewrite len_app in *. unfold len in *. simpl in *. lia.
Qed.

(** With a budget that is not negative, no pass pops an empty list. *)
Lemma truncate_body_no_raise a b m e : 0 ≤ m → truncate_body a b m ≠ Raise e.
Proof.
  intros H0. destruct (Z.le_gt_cases (len a + len b) m) as [Hfit|Hbig].
  { by rewrite truncate_body_break. }
  destruct (Z.lt_ge_cases (len b) (len a)) as [Hab|Hab].
  - destruct (truncate_body_a a b m) as (x & a' & _ & ->); [lia..|done].
  - destruct (truncate_body_b a b m) as (x & b' & _ & ->); [lia..|done].
Qed.

(** The loop always stops within [length a + length b + 1] passes, whatever
    the budget: with an exception or with the two final lists. *)
Lemma truncate_loop_enough fuel a b m :
  (length a + length b < fuel)%nat → is_Some (truncate_loop fuel a b m).
Proof.
  revert a b. induction fuel as [|fuel IH]; intros a b Hf; [lia|].
  simpl. destruct (truncate_body a b m) as [|a1 b1|e] eqn:E; [by eexists| |by eexists].
  apply IH. apply truncate_body_continue in E. unfold len in E. lia.
Qed.

Lemma truncate_loop_mono fuel fuel' a b m r :
  (fuel ≤ fuel')%nat → truncate_loop fuel a b m = Some r → truncate_loop fuel' a b m = Some r.
Proof.
  revert fuel' a b. induction fuel as [|fuel IH]; intros fuel' a b Hle; [done|].
  destruct fuel' as [|fuel']; [lia|]. simpl.
  destruct (truncate_body a b m); [done| |done]. apply IH. lia.
Qed.

(** So the result of the function is the result of the loop under any
    sufficient fuel. *)
Lemma truncate_loop_stable fuel a b m :
  (length a + length b < fuel)%nat →
  truncate_loop fuel a b m = Some (_truncate_seq_pair a b m).
Proof.
  intros Hf. unfold _truncate_seq_pair.
  destruct (truncate_loop_enough (S (length a + length b)) a b m) as [r Hr]; [lia|].
  rewrite Hr. simpl. eapply truncate_loop_mono; [|done]. lia.
Qed.

(** The function satisfies the equation of the loop. *)
Lemma truncate_seq_pair_unfold a b m :
  _truncate_seq_pair a b m =
  match truncate_body a b m with
  | Break => inr (a, b)
  | Continue a1 b1 => _truncate_seq_pair a1 b1 m
  | Raise e => inl e
  end.
Proof.
  unfold _truncate_seq_pair at 1. simpl.
  destruct (truncate_body a b m) as [|a1 b1|e] eqn:E; [done| |done].
  rewrite truncate_loop_stable; [done|].
  apply truncate_body_continue in E. unfold len in E. lia.
Qed.

(** With a budget that is not negative it stops with two lists, which the
    rule relates to the initial ones. *)
Lemma truncate_seq_pair_rule a b m :
  0 ≤ m → ∃ a' b', _truncate_seq_pair a b m = inr (a', b') ∧ truncation_rule m a b a' b'.
Proof.
  intros H0. remember (length a + length b)%nat as n eqn:En.
  revert a b En. induction n as [n IH] using lt_wf_ind. intros a b ->.
  rewrite truncate_seq_pair_unfold.
  destruct (Z.le_gt_cases (len a + len b) m) as [Hfit|Hbig].
  { rewrite truncate_body_break by done. exists a, b. split; [done|by constructor]. }
  destruct (Z.lt_ge_cases (len b) (len a)) as [Hab|Hab].
  - destruct (truncate_body_a a b m) as (x & a1 & -> & ->); [lia..|].
    destruct (IH (length a1 + length b)%nat) with (a := a1) (b := b) as (a' & b' & Hl & Hr);
      [rewrite length_app; simpl; lia|done|].
    exists a', b'. split; [done|]. by apply rule_shorten_a; [lia..|].
  - destruct (truncate_body_b a b m) as (x & b1 & -> & ->); [lia..|].
    destruct (IH (length a + length b1)%nat) with (a := a) (b := b1) as (a' & b' & Hl & Hr);
      [rewrite length_app; simpl; lia|done|].
    exists a', b'. split; [done|]. by apply rule_shorten_b; [lia..|].
Qed.

(** The rule determines the result. *)
Lemma truncation_rule_length m a b a' b' :
  truncation_rule m a b a' b' → len a' + len b' = Z.min (len a + len b) m.
Proof. induction 1; rewrite ?len_app in *; unfold len in *; simpl in *; lia. Qed.

Lemma truncation_rule_prefix m a b a' b' :
  truncation_rule m a b a' b' → a' `prefix_of` a ∧ b' `prefix_of` b.
Proof.
  induction 1 as [| ????? _ _ _ [IHa IHb] | ????? _ _ _ [IHa IHb]]; [done|..];
    (split; [|done]) || (split; [done|]); by apply prefix_app_r.
Qed.

End TruncateFacts.

(** ** The label map *)

Section LabelMap.
Implicit Types (l : list string) (m : gmap string nat) (k : string).

(** The dict comprehension, started at index [start] from the map [m]. *)
Local Abbreviation fill start l m := (fill_label_map m (enumerate_from start l)).

Lemma fill_lookup_notin l start m k : k ∉ l → (fill start l m) !! k = m !! k.
Proof.
  revert start m. induction l as [|x l IH]; intros start m Hk; [done|].
  apply not_elem_of_cons in Hk as [Hx Hl]. simpl.
  rewrite IH by done. by rewrite lookup_insert_ne.
Qed.

Lemma fill_lookup_index l start m k j :
  NoDup l → l !! j = Some k → (fill start l m) !! k = Some (start + j)%nat.
Proof.
  revert start m j. induction l as [|x l IH]; intros start m j Hnd Hj; [done|].
  apply NoDup_cons in Hnd as [Hx Hnd]. destruct j as [|j]; simpl in *.
  - injection Hj as ->. rewrite fill_lookup_notin by done.
    by rewrite lookup_insert_eq, Nat.add_0_r.
  - rewrite (IH _ _ j) by done. f_equal. lia.
Qed.

Lemma fill_lookup_Some l start m k i :
  (fill start l m) !! k = Some i →
  ((k ∉ l) ∧ m !! k = Some i) ∨ (∃ j, i = (start + j)%nat ∧ l !! j = Some k).
Proof.
  revert start m. induction l as [|x l IH]; intros start m Hi; simpl in *.
  { left. split; [apply not_elem_of_nil|done]. }
  apply IH in Hi as [[Hk Hi]|(j & -> & Hj)].
  - destruct (decide (x = k)) as [->|Hne].
    + rewrite lookup_insert_eq in Hi. injection Hi as <-.
      right. exists 0%nat. split; [lia|done].
    + rewrite lookup_insert_ne in Hi by done.
      left. split; [|done]. by apply not_elem_of_cons.
  - right. exists (S j). split; [lia|done].
Qed.

(** Every label of the list is a key, whose value is an index of that
    label. *)
Lemma make_label_map_Some l k i : make_label_map l !! k = Some i → l !! i = Some k.
Proof.
  intros H. apply fill_lookup_Some in H as [[_ H]|(j & -> & Hj)]; [done|].
  by rewrite Nat.add_0_l.
Qed.

Lemma make_label_map_index l k i :
  NoDup l → l !! i = Some k → make_label_map l !! k = Some i.
Proof. intros Hnd Hi. unfold make_label_map, enumerate. by rewrite (fill_lookup_index _ _ _ _ i). Qed.

Lemma make_label_map_None l k : make_label_map l !! k = None ↔ k ∉ l.
Proof.
  split.
  - intros Hn Hk. apply list_elem_of_lookup in Hk as [j Hj].
    assert (∃ i, make_label_map l !! k = Some i) as [i Hi]; [|congruence].
    clear Hn. unfold make_label_map, enumerate. generalize (∅ : gmap string nat) 0%nat.
    revert j Hj. induction l as [|x l IH]; intros j Hj m start; [done|].
    destruct (decide (k ∈ l)) as [Hin|Hout].
    + apply list_elem_of_lookup in Hin as [j' Hj']. simpl. by eapply IH.
    + simpl. rewrite fill_lookup_notin by done.
      destruct j as [|j]; [|exfalso; apply Hout; by eapply list_elem_of_lookup_2].
      injection Hj as ->. rewrite lookup_insert_eq. by eexists.
  - intros Hk. unfold make_label_map, enumerate. by rewrite fill_lookup_notin.
Qed.

End LabelMap.

(** ** Computations *)

Section MonadFacts.
Context {A B : Type}.
Implicit Types (m : M A) (f : A → M B).

Lemma outcome_bind m f :
  outcome (m ≫= f) = match outcome m with inl e => inl e | inr x => outcome (f x) end.
Proof. destruct m as [tr [e|x]]; [done|]. unfold outcome. simpl. by destruct (f x). Qed.

Lemma trace_bind m f :
  trace (m ≫= f) =
  trace m ++ match outcome m with inl e => [] | inr x => trace (f x) end.
Proof.
  destruct m as [tr [e|x]]; unfold trace, outcome; simpl; [by rewrite app_nil_r|].
  by destruct (f x).
Qed.

End MonadFacts.

Lemma outcome_emit ev : outcome (emit ev) = inr ().
Proof. done. Qed.

Lemma outcome_when_emit b ev : outcome (when b (emit ev)) = inr ().
Proof. by destruct b. Qed.

Lemma outcome_py_assert b : outcome (py_assert b) = if b then inr () else inl AssertionError.
Proof. by destruct b. Qed.

Lemma outcome_lift {A} (r : exn + A) : outcome (lift r) = r.
Proof. done. Qed.

Lemma outcome_mret {A} (x : A) : outcome (mret x : M A) = inr x.
Proof. done. Qed.

Lemma enumerate_from_lookup {A} (l : list A) (start i : nat) :
  enumerate_from start l !! i = (λ x, ((start + i)%nat, x)) <$> l !! i.
Proof.
  revert start i. induction l as [|x l IH]; intros start i; [done|].
  destruct i as [|i]; simpl; [by rewrite Nat.add_0_r|].
  rewrite IH. by replace (S start + i)%nat with (start + S i)%nat by lia.
Qed.

Lemma enumerate_from_length {A} (l : list A) (start : nat) :
  length (enumerate_from start l) = length l.
Proof. revert start. induction l as [|x l IH]; intros start; simpl; [done|by rewrite IH]. Qed.

(** ** The steps of the loop body *)

Section ConvertFacts.
Context {EpaInfos : Type}.
Variable float_of_string : string → option float.
Variable label_list : list string.
Variable max_seq_length : Z.
Variable tokenizer : Tokenizer EpaInfos.
Variable output_mode : string.
Variable cfg : Config.
Variable epa_infos : option EpaInfos.

Local Abbreviation assemble' := (assemble cfg).
Local Abbreviation pad' := (pad max_seq_length cfg).
Local Abbreviation encode_example' := (encode_example max_seq_length tokenizer cfg epa_infos).
Local Abbreviation convert_example' :=
  (convert_example float_of_string max_seq_length tokenizer output_mode cfg epa_infos).
Local Abbreviation tokenize_and_truncate' :=
  (tokenize_and_truncate max_seq_length tokenizer cfg epa_infos).

(** The number of separators and class tokens around [tokens_a]. *)
Lemma assemble_lengths tokens_a tokens_b epa_vec tokens epa segs :
  assemble' tokens_a tokens_b epa_vec = (tokens, epa, segs) →
  len tokens = len tokens_a + (if sep_token_extra cfg then 3 else 2)
               + match truthy_list tokens_b with Some b => len b + 1 | None => 0 end ∧
  len segs = len tokens ∧
  len epa = len epa_vec + (if sep_token_extra cfg then 3 else 2).
Proof.
  unfold assemble. intros H.
  destruct (sep_token_extra cfg), (truthy_list tokens_b) as [b|], (cls_token_at_end cfg);
    injection H as <- <- <-;
    unfold len, py_repeat; simpl;
    repeat (rewrite ?length_app, ?length_replicate; simpl); lia.
Qed.

(** The class token's segment id is first or last in the assembled list. *)
Lemma assemble_cls_segment tokens_a tokens_b epa_vec tokens epa segs :
  assemble' tokens_a tokens_b epa_vec = (tokens, epa, segs) →
  ∃ segs0, segs = if cls_token_at_end cfg
                  then segs0 ++ [cls_token_segment_id cfg]
                  else cls_token_segment_id cfg :: segs0.
Proof.
  unfold assemble. intros H.
  destruct (sep_token_extra cfg), (truthy_list tokens_b) as [b|], (cls_token_at_end cfg);
    injection H as <- <- <-; by eexists.
Qed.

Lemma outcome_check_lengths ids mask segs epa :
  outcome (check_lengths max_seq_length ids mask segs epa) = inr () →
  len ids = max_seq_length ∧ len mask = max_seq_length ∧
  len segs = max_seq_length ∧ len epa = max_seq_length.
Proof.
  unfold check_lengths. rewrite !outcome_bind, !outcome_py_assert.
  destruct (Z.eqb_spec (len ids) max_seq_length); [|done].
  destruct (Z.eqb_spec (len mask) max_seq_length); [|done].
  destruct (Z.eqb_spec (len segs) max_seq_length); [|done].
  destruct (Z.eqb_spec (len epa) max_seq_length); done.
Qed.

Lemma outcome_check_lengths_ok ids mask segs epa :
  len ids = max_seq_length → len mask = max_seq_length →
  len segs = max_seq_length → len epa = max_seq_length →
  check_lengths max_seq_length ids mask segs epa = ([], inr ()).
Proof.
  intros H1 H2 H3 H4. unfold check_lengths.
  by rewrite H1, H2, H3, H4, Z.eqb_refl.
Qed.

(** What [encode_example] went through when it returns. *)
Lemma encode_example_inr n i example tokens ids mask segs epa :
  outcome (encode_example' n i example) = inr (tokens, ids, mask, segs, epa) →
  ∃ tokens_a tokens_b epa_a epa0 segs0,
    outcome (tokenize_and_truncate' example) = inr (tokens_a, tokens_b, epa_a) ∧
    assemble' tokens_a tokens_b epa_a = (tokens, epa0, segs0) ∧
    pad' (convert_tokens_to_ids tokenizer tokens) segs0 epa0 = (ids, mask, segs, epa) ∧
    len ids = max_seq_length ∧ len mask = max_seq_length ∧
    len segs = max_seq_length ∧ len epa = max_seq_length.
Proof.
  unfold encode_example. rewrite outcome_bind, outcome_when_emit, outcome_bind.
  destruct (outcome (tokenize_and_truncate' example)) as [e|[[tokens_a tokens_b] epa_a]];
    [done|].
  destruct (assemble' tokens_a tokens_b epa_a) as [[tokens' epa0] segs0] eqn:Ea.
  rewrite outcome_bind, outcome_emit.
  destruct (pad' (convert_tokens_to_ids tokenizer tokens') segs0 epa0)
    as [[[ids' mask'] segs'] epa'] eqn:Ep.
  rewrite outcome_bind.
  destruct (outcome (check_lengths max_seq_length ids' mask' segs' epa')) as [e|[]] eqn:Ec;
    [done|].
  rewrite outcome_mret. intros [= -> -> -> -> ->].
  apply outcome_check_lengths in Ec.
  exists tokens_a, tokens_b, epa_a, epa0, segs0. by rewrite Ep.
Qed.

Lemma outcome_log_example example tokens ids mask segs lid b :
  outcome (when b (log_example example tokens ids mask segs lid))
  = if b then percent_d lid else inr ().
Proof.
  destruct b; [|done]. unfold when, log_example.
  rewrite !outcome_bind, !outcome_emit, outcome_lift.
  by destruct (percent_d lid) as [e|[]].
Qed.


(** The outcome of the whole body, from that of its first part. *)
Lemma outcome_convert_example label_map n i example :
  outcome (convert_example' label_map n i example) =
  match outcome (encode_example' n i example) with
  | inl e => inl e
  | inr (tokens, ids, mask, segs, epa) =>
      match resolve_label float_of_string output_mode label_map (label example) with
      | inl e => inl e
      | inr lid =>
          match (if Z.of_nat i <? 5 then percent_d lid else inr ()) with
          | inl e => inl e
          | inr _ => inr {| input_ids := ids; input_mask := mask; segment_ids := segs;
                            label_id := lid; epa_vec := epa |}
          end
      end
  end.
Proof.
  unfold convert_example. rewrite outcome_bind.
  destruct (outcome (encode_example' n i example)) as [e|[[[[tokens ids] mask] segs] epa]];
    [done|].
  rewrite outcome_bind, outcome_lift.
  destruct (resolve_label _ _ _ _) as [e|lid]; [done|].
  rewrite outcome_bind, outcome_log_example.
  by destruct (if Z.of_nat i <? 5 then percent_d lid else inr ()) as [e|[]].
Qed.

(** The loop returns exactly when every pass does, and then appends the
    features in order. *)
Lemma outcome_convert_loop label_map n todo acc fs :
  outcome (convert_loop float_of_string max_seq_length tokenizer output_mode cfg epa_infos
             label_map n todo acc) = inr fs ↔
  ∃ fs', fs = acc ++ fs' ∧
         Forall2 (λ p f, outcome (convert_example' label_map n p.1 p.2) = inr f) todo fs'.
Proof.
  revert acc fs. induction todo as [|[i example] todo IH]; intros acc fs;
    cbn [convert_loop].
  - rewrite outcome_mret. split.
    + intros [= <-]. exists []. by rewrite app_nil_r.
    + intros (fs' & -> & H). apply Forall2_nil_inv_l in H as ->. by rewrite app_nil_r.
  - rewrite outcome_bind. split.
    + destruct (outcome (convert_example' label_map n i example)) as [e|f] eqn:E; [done|].
      intros H. apply IH in H as (fs' & -> & H).
      exists (f :: fs'). split; [by rewrite <- app_assoc|]. by constructor.
    + intros (fs' & -> & H). apply Forall2_cons_inv_l in H as (f & fs'' & Hf & H & ->).
      simpl in Hf. rewrite Hf. apply IH. exists fs''. by rewrite <- app_assoc.
Qed.

(** When the four padded lists have the full length, the three lists that
    were padded had one length, and the padding has the rest. *)
Lemma pad_full ids0 segs0 epa0 ids mask segs epa :
  pad' ids0 segs0 epa0 = (ids, mask, segs, epa) →
  len ids = max_seq_length → len segs = max_seq_length → len epa = max_seq_length →
  let p := Z.to_nat (max_seq_length - len ids0) in
  (length ids0 + p)%nat = Z.to_nat max_seq_length ∧
  length segs0 = length ids0 ∧ length epa0 = length ids0 ∧
  (ids, mask, segs, epa) =
    if pad_on_left cfg
    then (replicate p (pad_token cfg) ++ ids0,
          replicate p (pad_mask cfg) ++ replicate (length ids0) (real_mask cfg),
          replicate p (pad_token_segment_id cfg) ++ segs0,
          replicate p 0.0%float ++ epa0)
    else (ids0 ++ replicate p (pad_token cfg),
          replicate (length ids0) (real_mask cfg) ++ replicate p (pad_mask cfg),
          segs0 ++ replicate p (pad_token_segment_id cfg),
          epa0 ++ replicate p 0.0%float).
Proof.
  intros H Hi Hs He p. unfold pad in H. cbv zeta in H.
  assert (len ids = len ids0 + Z.of_nat p ∧ len segs = len segs0 + Z.of_nat p ∧
          len epa = len epa0 + Z.of_nat p) as (Hi' & Hs' & He').
  { destruct (pad_on_left cfg); injection H as <- <- <- <-;
      rewrite !len_app, !len_py_repeat; lia. }
  unfold len in *. repeat split; [lia..|].
  rewrite <- H. unfold py_repeat, len. fold p. rewrite Nat2Z.id. by destruct (pad_on_left cfg).
Qed.

(** A feature that the body produced, traced back through its steps. *)
Lemma convert_example_inr label_map n i example f :
  outcome (convert_example' label_map n i example) = inr f →
  ∃ tokens_a tokens_b epa_a tokens epa0 segs0,
    outcome (tokenize_and_truncate' example) = inr (tokens_a, tokens_b, epa_a) ∧
    assemble' tokens_a tokens_b epa_a = (tokens, epa0, segs0) ∧
    pad' (convert_tokens_to_ids tokenizer tokens) segs0 epa0
      = (input_ids f, input_mask f, segment_ids f, epa_vec f) ∧
    len (input_ids f) = max_seq_length ∧ len (input_mask f) = max_seq_length ∧
    len (segment_ids f) = max_seq_length ∧ len (epa_vec f) = max_seq_length ∧
    resolve_label float_of_string output_mode label_map (label example) = inr (label_id f).
Proof.
  rewrite outcome_convert_example.
  destruct (outcome (encode_example' n i example))
    as [e|[[[[tokens ids] mask] segs] epa]] eqn:E; [done|].
  destruct (resolve_label _ _ _ _) as [e|lid] eqn:El; [done|].
  destruct (if Z.of_nat i <? 5 then percent_d lid else inr ()) as [e|[]]; [done|].
  intros [= <-]. simpl.
  apply encode_example_inr in E
    as (tokens_a & tokens_b & epa_a & epa0 & segs0 & Ht & Ha & Hp & H1 & H2 & H3 & H4).
  by exists tokens_a, tokens_b, epa_a, tokens, epa0, segs0.
Qed.

(** The features that the function returns, position by position. *)
Lemma convert_examples_to_features_inr examples fs :
  outcome (convert_examples_to_features float_of_string label_list max_seq_length tokenizer
             output_mode cfg epa_infos examples) = inr fs →
  length fs = length examples ∧
  ∀ i, (∀ example, examples !! i = Some example →
          ∃ f, fs !! i = Some f ∧
               outcome (convert_example' (make_label_map label_list) (length examples)
                          i example) = inr f) ∧
       (∀ f, fs !! i = Some f →
          ∃ example, examples !! i = Some example ∧
               outcome (convert_example' (make_label_map label_list) (length examples)
                          i example) = inr f).
Proof.
  unfold convert_examples_to_features. intros H.
  apply outcome_convert_loop in H as (fs' & -> & H). simpl.
  split.
  { apply Forall2_length in H. unfold enumerate in H.
    by rewrite <- H, enumerate_from_length. }
  intros i. split.
  - intros example Hi.
    destruct (Forall2_lookup_l _ _ _ i (i, example) H) as (f & Hf & Ho).
    { unfold enumerate. by rewrite enumerate_from_lookup, Hi. }
    by exists f.
  - intros f Hf.
    destruct (Forall2_lookup_r _ _ _ i f H Hf) as ([j example] & Hj & Ho).
    unfold enumerate in Hj. rewrite enumerate_from_lookup in Hj.
    destruct (examples !! i) as [example'|] eqn:Ei; [|done].
    injection Hj as <- <-. by exists example'.
Qed.

Lemma outcome_check_lengths_exn ids mask segs epa e :
  outcome (check_lengths max_seq_length ids mask segs epa) = inl e → e = AssertionError.
Proof.
  unfold check_lengths. rewrite !outcome_bind, !outcome_py_assert.
  destruct (len ids =? max_seq_length); [|congruence].
  destruct (len mask =? max_seq_length); [|congruence].
  destruct (len segs =? max_seq_length); [|congruence].
  destruct (len epa =? max_seq_length); congruence.
Qed.

(** The two branches of [tokenize_and_truncate]. *)
Lemma outcome_tokenize_pair example text tokens_a epa_a :
  truthy_text (text_b example) = Some text →
  tokenize_epa tokenizer (text_a example) epa_infos = (tokens_a, epa_a) →
  outcome (tokenize_and_truncate' example) =
  match _truncate_seq_pair tokens_a (tokenize tokenizer text)
          (max_seq_length - (if sep_token_extra cfg then 4 else 3)) with
  | inl e => inl e
  | inr (a, b) => inr (a, Some b, epa_a)
  end.
Proof.
  intros Hb Ha. unfold tokenize_and_truncate.
  rewrite outcome_bind, outcome_emit, Ha, Hb, outcome_bind, outcome_emit.
  cbv zeta. rewrite outcome_bind, outcome_lift.
  by destruct (_truncate_seq_pair _ _ _) as [e|[a b]].
Qed.

Lemma outcome_tokenize_single example tokens_a epa_a :
  truthy_text (text_b example) = None →
  tokenize_epa tokenizer (text_a example) epa_infos = (tokens_a, epa_a) →
  let budget := max_seq_length - (if sep_token_extra cfg then 3 else 2) in
  outcome (tokenize_and_truncate' example) =
  inr (if len tokens_a >? budget
       then (slice_to tokens_a budget, None, slice_to epa_a budget)
       else (tokens_a, None, epa_a)).
Proof.
  intros Hb Ha. unfold tokenize_and_truncate.
  rewrite outcome_bind, outcome_emit, Ha, Hb. cbv zeta.
  by destruct (len tokens_a >? _).
Qed.

(** Every example is tokenized before anything can go wrong. *)
Lemma trace_encode_example_tokenize n i example :
  CallTokenizeEpa (text_a example) ∈ trace (encode_example' n i example).
Proof.
  unfold encode_example. rewrite trace_bind, outcome_when_emit, trace_bind.
  apply elem_of_app. right. apply elem_of_app. left.
  unfold tokenize_and_truncate. rewrite trace_bind.
  apply elem_of_app. left. apply list_elem_of_here.
Qed.

(** A pair example that needs no truncation: [epa_vec] gets no weight for
    [tokens_b] and its separator, so it is shorter than the other three
    lists and the last assertion, if no earlier one, fails. *)
Lemma encode_pair_assertion n i example text tokens_a epa_a :
  truthy_text (text_b example) = Some text →
  tokenize_epa tokenizer (text_a example) epa_infos = (tokens_a, epa_a) →
  length epa_a = length tokens_a →
  tokenize tokenizer text ≠ [] →
  len tokens_a + len (tokenize tokenizer text)
    ≤ max_seq_length - (if sep_token_extra cfg then 4 else 3) →
  outcome (encode_example' n i example) = inl AssertionError.
Proof.
  intros Hb Ha Hlen Hne Hfit. unfold encode_example.
  rewrite outcome_bind, outcome_when_emit, outcome_bind.
  rewrite (outcome_tokenize_pair _ _ _ _ Hb Ha).
  rewrite truncate_seq_pair_unfold, truncate_body_break by done.
  destruct (assemble' tokens_a (Some (tokenize tokenizer text)) epa_a)
    as [[tokens epa0] segs0] eqn:Eas.
  rewrite outcome_bind, outcome_emit.
  destruct (pad' (convert_tokens_to_ids tokenizer tokens) segs0 epa0)
    as [[[ids mask] segs] epa] eqn:Ep.
  rewrite outcome_bind.
  destruct (outcome (check_lengths max_seq_length ids mask segs epa)) as [e|[]] eqn:Ec.
  { by apply outcome_check_lengths_exn in Ec as ->. }
  exfalso. apply outcome_check_lengths in Ec as (H1 & _ & H3 & H4).
  destruct (pad_full _ _ _ _ _ _ _ Ep H1 H3 H4) as (_ & Hs & He & _).
  apply assemble_lengths in Eas as (Ht & Hsg & Hep).
  destruct (tokenize tokenizer text) as [|t ts]; [done|]. simpl in Ht.
  unfold len in *. destruct (sep_token_extra cfg); simpl in *; lia.
Qed.

(** A single example, with a tokenizer that returns one weight and one id
    per token and a length that leaves room for the special tokens, passes
    the four assertions. *)
Lemma encode_single_passes n i example tokens_a epa_a :
  truthy_text (text_b example) = None →
  tokenize_epa tokenizer (text_a example) epa_infos = (tokens_a, epa_a) →
  length epa_a = length tokens_a →
  (∀ tokens, length (convert_tokens_to_ids tokenizer tokens) = length tokens) →
  (if sep_token_extra cfg then 3 else 2) ≤ max_seq_length →
  ∃ r, outcome (encode_example' n i example) = inr r.
Proof.
  intros Hb Ha Hlen Hids Hmax. unfold encode_example.
  rewrite outcome_bind, outcome_when_emit, outcome_bind.
  rewrite (outcome_tokenize_single _ _ _ Hb Ha).
  set (budget := max_seq_length - (if sep_token_extra cfg then 3 else 2)).
  set (t := if len tokens_a >? budget then _ else _).
  assert (∃ ta ea, t = (ta, None, ea) ∧ len ta ≤ budget ∧ len ea = len ta)
    as (ta & ea & -> & Hta & Hea).
  { subst t. rewrite Z.gtb_ltb. destruct (Z.ltb_spec budget (len tokens_a)).
    - eexists _, _. split; [done|]. rewrite !slice_to_length by (subst budget; lia).
      unfold len in *. lia.
    - eexists _, _. split; [done|]. unfold len in *. lia. }
  destruct (assemble' ta None ea) as [[tokens epa0] segs0] eqn:Eas.
  rewrite outcome_bind, outcome_emit.
  destruct (pad' (convert_tokens_to_ids tokenizer tokens) segs0 epa0)
    as [[[ids mask] segs] epa] eqn:Ep.
  apply assemble_lengths in Eas as (Ht & Hsg & Hep). simpl in Ht.
  assert (len (convert_tokens_to_ids tokenizer tokens) = len tokens) as Hi.
  { unfold len. by rewrite Hids. }
  rewrite outcome_check_lengths_ok; [by eexists|..];
    unfold pad in Ep; cbv zeta in Ep;
    destruct (pad_on_left cfg); injection Ep as <- <- <- <-;
    rewrite !len_app, !len_py_repeat; subst budget;
    destruct (sep_token_extra cfg); unfold len in *; lia.
Qed.

End ConvertFacts.

(** ** Claims about [_truncate_seq_pair] *)

(** C3.  For a budget [m] that is not negative, [_truncate_seq_pair] returns
    the two lists that the rule of the specification yields: while the lists
    together are longer than [m], the last item of the strictly longer one is
    removed, and the last item of [tokens_b] on a tie.  With 10 and 3 tokens
    and a budget of 8, [tokens_b] is unchanged and [tokens_a] keeps its first
    5 tokens. *)
Theorem truncate_seq_pair_follows_rule {A} (tokens_a tokens_b : list A) (m : Z) :
  0 ≤ m →
  (∃ a' b', _truncate_seq_pair tokens_a tokens_b m = inr (a', b') ∧
            truncation_rule m tokens_a tokens_b a' b') ∧
  (len tokens_a + len tokens_b ≤ m →
     _truncate_seq_pair tokens_a tokens_b m = inr (tokens_a, tokens_b)) ∧
  (∀ x, m < len (tokens_a ++ [x]) + len tokens_b → len tokens_b < len (tokens_a ++ [x]) →
     _truncate_seq_pair (tokens_a ++ [x]) tokens_b m = _truncate_seq_pair tokens_a tokens_b m) ∧
  (∀ x, m < len tokens_a + len (tokens_b ++ [x]) → len tokens_a ≤ len (tokens_b ++ [x]) →
     _truncate_seq_pair tokens_a (tokens_b ++ [x]) m = _truncate_seq_pair tokens_a tokens_b m) ∧
  (length tokens_a = 10%nat → length tokens_b = 3%nat →
     _truncate_seq_pair tokens_a tokens_b 8 = inr (take 5 tokens_a, tokens_b)).
Proof.
  intros H0. split; [by apply truncate_seq_pair_rule|]. split; [|split; [|split]].
  - intros Hfit. by rewrite truncate_seq_pair_unfold, truncate_body_break.
  - intros x Hm Hab. rewrite truncate_seq_pair_unfold.
    destruct (truncate_body_a (tokens_a ++ [x]) tokens_b m) as (y & a1 & E & ->); [lia..|].
    by apply app_inj_tail in E as [-> _].
  - intros x Hm Hab. rewrite truncate_seq_pair_unfold.
    destruct (truncate_body_b tokens_a (tokens_b ++ [x]) m) as (y & b1 & E & ->); [lia..|].
    by apply app_inj_tail in E as [-> _].
  - intros Ha Hb.
    do 11 (destruct tokens_a as [|? tokens_a]; try discriminate Ha).
    do 4 (destruct tokens_b as [|? tokens_b]; try discriminate Hb).
    reflexivity.
Qed.

Lemma truncate_seq_pair_follows_rule_witness :
  _truncate_seq_pair ["a";"b";"c";"d";"e";"f";"g";"h";"i";"j"] ["x";"y";"z"] 8
  = inr (["a";"b";"c";"d";"e"], ["x";"y";"z"]).
Proof.
  refine (proj2 (proj2 (proj2 (proj2
    (truncate_seq_pair_follows_rule
       ["a";"b";"c";"d";"e";"f";"g";"h";"i";"j"] ["x";"y";"z"] 8 _)))) _ _);
    [lia | reflexivity | reflexivity].
Defined.

(** C10.  For a budget [m] that is not negative: no pass of the loop pops an
    empty list; every pass that goes on found the lists too long and leaves
    them with one item fewer in total; the loop stops, within
    [length tokens_a + length tokens_b + 1] passes, and the total length of
    the final lists is the minimum of the initial total length and [m]. *)
Theorem truncate_seq_pair_terminates {A} (tokens_a tokens_b : list A) (m : Z) :
  0 ≤ m →
  (∀ e, truncate_body tokens_a tokens_b m ≠ Raise e) ∧
  (∀ a1 b1, truncate_body tokens_a tokens_b m = Continue a1 b1 →
     len a1 + len b1 = len tokens_a + len tokens_b - 1 ∧ m < len tokens_a + len tokens_b) ∧
  ∃ a' b',
    (∀ fuel, (length tokens_a + length tokens_b < fuel)%nat →
       truncate_loop fuel tokens_a tokens_b m = Some (inr (a', b'))) ∧
    _truncate_seq_pair tokens_a tokens_b m = inr (a', b') ∧
    len a' + len b' = Z.min (len tokens_a + len tokens_b) m.
Proof.
  intros H0. split; [intros e; by apply truncate_body_no_raise|].
  split; [intros a1 b1; apply truncate_body_continue|].
  destruct (truncate_seq_pair_rule tokens_a tokens_b m H0) as (a' & b' & Hs & Hr).
  exists a', b'. split; [|split; [done|by eapply truncation_rule_length]].
  intros fuel Hf. by rewrite truncate_loop_stable, Hs.
Qed.

(** ** Claims about [convert_examples_to_features] *)

Section Claims.
Context {EpaInfos : Type}.
Variable float_of_string : string → option float.
Variable label_list : list string.
Variable max_seq_length : Z.
Variable tokenizer : Tokenizer EpaInfos.
Variable output_mode : string.
Variable cfg : Config.
Variable epa_infos : option EpaInfos.

Local Abbreviation convert :=
  (convert_examples_to_features float_of_string label_list max_seq_length tokenizer
     output_mode cfg epa_infos).
Local Abbreviation body :=
  (convert_example float_of_string max_seq_length tokenizer output_mode cfg epa_infos
     (make_label_map label_list)).

(** C9.  When the function returns, it returns as many features as there
    are examples, and the feature at each position is the one that the loop
    body produces for the example at that position. *)
Theorem features_follow_examples (examples : list InputExample) (fs : list InputFeatures) :
  outcome (convert examples) = inr fs →
  length fs = length examples ∧
  ∀ i example, examples !! i = Some example →
    ∃ f, fs !! i = Some f ∧ outcome (body (length examples) i example) = inr f.
Proof.
  intros H. apply convert_examples_to_features_inr in H as [Hlen H].
  split; [done|]. intros i example Hi. by apply (H i).
Qed.

(** C5.  In every feature that the function returns, the four lists are the
    assembled lists of the example (ids, an all-real mask, segment ids and
    weights, all of one length) with [padding_length] copies of the pad
    values on one side: after them when [pad_on_left] is false, before them
    when it is true.  The pad values are [pad_token], [pad_token_segment_id],
    [0.0] and, in the mask, the inverse of the value for a real token: 0
    against 1 when [mask_padding_with_zero] holds, 1 against 0 otherwise. *)
Theorem padding_is_contiguous (examples : list InputExample) (fs : list InputFeatures) :
  outcome (convert examples) = inr fs →
  ∀ i f, fs !! i = Some f →
    ∃ example tokens_a tokens_b epa_a tokens epa segs,
      examples !! i = Some example ∧
      outcome (tokenize_and_truncate max_seq_length tokenizer cfg epa_infos example)
        = inr (tokens_a, tokens_b, epa_a) ∧
      assemble cfg tokens_a tokens_b epa_a = (tokens, epa, segs) ∧
      let ids := convert_tokens_to_ids tokenizer tokens in
      let padding_length := Z.to_nat (max_seq_length - len ids) in
      let real_value := if mask_padding_with_zero cfg then 1 else 0 in
      let pad_value := if mask_padding_with_zero cfg then 0 else 1 in
      pad_value = 1 - real_value ∧
      (length ids + padding_length)%nat = Z.to_nat max_seq_length ∧
      length segs = length ids ∧ length epa = length ids ∧
      if pad_on_left cfg then
        input_ids f = replicate padding_length (pad_token cfg) ++ ids ∧
        input_mask f = replicate padding_length pad_value
                       ++ replicate (length ids) real_value ∧
        segment_ids f = replicate padding_length (pad_token_segment_id cfg) ++ segs ∧
        epa_vec f = replicate padding_length 0.0%float ++ epa
      else
        input_ids f = ids ++ replicate padding_length (pad_token cfg) ∧
        input_mask f = replicate (length ids) real_value
                       ++ replicate padding_length pad_value ∧
        segment_ids f = segs ++ replicate padding_length (pad_token_segment_id cfg) ∧
        epa_vec f = epa ++ replicate padding_length 0.0%float.
Proof.
  intros H i f Hf. apply convert_examples_to_features_inr in H as [_ H].
  destruct (H i) as [_ H']. destruct (H' f Hf) as (example & Hi & Ho). clear H H'.
  apply convert_example_inr in Ho
    as (tokens_a & tokens_b & epa_a & tokens & epa & segs & Ht & Ha & Hp & H1 & _ & H3 & H4 & _).
  exists example, tokens_a, tokens_b, epa_a, tokens, epa, segs.
  do 3 (split; [done|]). intros ids padding_length real_value pad_value.
  destruct (pad_full _ _ _ _ _ _ _ _ _ Hp H1 H3 H4) as (Hn & Hs & He & Heq).
  split; [subst real_value pad_value; by destruct (mask_padding_with_zero cfg)|].
  do 3 (split; [done|]).
  fold ids padding_length in Heq. unfold pad_mask, real_mask in Heq.
  fold real_value pad_value in Heq.
  by destruct (pad_on_left cfg); injection Heq as -> -> -> ->.
Qed.

(** C6, as the code has it.  In every feature that the function returns,
    the mask shows [n > 0] real positions, after the padding when
    [pad_on_left] is true and before it otherwise; the class token's segment
    id stands at the first real position when [cls_token_at_end] is false
    (position 0 only without padding on the left) and at the last real
    position when it is true. *)
Theorem cls_segment_at_real_end (examples : list InputExample) (fs : list InputFeatures) :
  outcome (convert examples) = inr fs →
  ∀ i f, fs !! i = Some f →
    ∃ n padding_length : nat,
      (0 < n)%nat ∧ (n + padding_length)%nat = Z.to_nat max_seq_length ∧
      input_mask f =
        (if pad_on_left cfg
         then replicate padding_length (pad_mask cfg) ++ replicate n (real_mask cfg)
         else replicate n (real_mask cfg) ++ replicate padding_length (pad_mask cfg)) ∧
      let first_real := if pad_on_left cfg then padding_length else 0%nat in
      let last_real := (first_real + n - 1)%nat in
      segment_ids f !! (if cls_token_at_end cfg then last_real else first_real)
        = Some (cls_token_segment_id cfg).
Proof.
  intros H i f Hf. apply convert_examples_to_features_inr in H as [_ H].
  destruct (H i) as [_ H']. destruct (H' f Hf) as (example & Hi & Ho). clear H H'.
  apply convert_example_inr in Ho
    as (tokens_a & tokens_b & epa_a & tokens & epa & segs & Ht & Ha & Hp & H1 & _ & H3 & H4 & _).
  destruct (pad_full _ _ _ _ _ _ _ _ _ Hp H1 H3 H4) as (Hn & Hs & He & Heq).
  destruct (assemble_cls_segment _ _ _ _ _ _ _ Ha) as [segs0 Hc].
  set (ids := convert_tokens_to_ids tokenizer tokens) in *.
  set (p := Z.to_nat (max_seq_length - len ids)) in *.
  assert (length segs = S (length segs0)) as Hl.
  { rewrite Hc. destruct (cls_token_at_end cfg); [rewrite length_app|]; simpl; lia. }
  exists (length ids), p. split; [lia|]. split; [done|].
  destruct (pad_on_left cfg); injection Heq as _ -> -> _; (split; [done|]); cbv zeta;
    rewrite Hc; destruct (cls_token_at_end cfg).
  - rewrite lookup_app_r; rewrite length_replicate; [|lia].
    replace (p + length ids - 1 - p)%nat with (length segs0) by lia.
    by rewrite list_lookup_middle.
  - rewrite lookup_app_r; rewrite length_replicate; [|lia].
    by rewrite Nat.sub_diag.
  - rewrite lookup_app_l by (rewrite length_app; simpl; lia).
    replace (0 + length ids - 1)%nat with (length segs0) by lia.
    by rewrite list_lookup_middle.
  - by rewrite lookup_app_l by (simpl; lia).
Qed.

(** C1.  The length check does fire: for a pair example whose second text
    has tokens and that needs no truncation, with one weight per token of
    [text_a], [epa_vec] receives no weights for [tokens_b] and its separator,
    so one of the four assertions fails and the call raises
    [AssertionError]. *)
Theorem pair_example_fails_length_check (example : InputExample)
    (rest : list InputExample) (text : string) (tokens_a : list string)
    (epa_a : list float) :
  truthy_text (text_b example) = Some text →
  tokenize_epa tokenizer (text_a example) epa_infos = (tokens_a, epa_a) →
  length epa_a = length tokens_a →
  tokenize tokenizer text ≠ [] →
  len tokens_a + len (tokenize tokenizer text)
    ≤ max_seq_length - (if sep_token_extra cfg then 4 else 3) →
  outcome (convert (example :: rest)) = inl AssertionError.
Proof.
  intros Hb Ha Hlen Hne Hfit. unfold convert_examples_to_features, enumerate.
  cbn [enumerate_from convert_loop].
  rewrite outcome_bind, outcome_convert_example.
  by rewrite encode_pair_assertion with (text := text) (tokens_a := tokens_a) (epa_a := epa_a).
Qed.

(** C4, as the code has it.  With an output mode that is neither
    ["classification"] nor ["regression"]: on no examples the function
    returns the empty list; on [example :: rest] it fails, having performed
    exactly the events of encoding [example] (its tokenization among them)
    and none for [rest], with the error of the encoding if that fails and with
    [KeyError(output_mode)] otherwise. *)
Theorem unknown_output_mode_fails_in_first_pass :
  output_mode ≠ "classification" → output_mode ≠ "regression" →
  convert [] = ([], inr []) ∧
  ∀ example rest,
    let run := convert (example :: rest) in
    let first := encode_example max_seq_length tokenizer cfg epa_infos
                   (S (length rest)) 0 example in
    trace run = trace first ∧
    CallTokenizeEpa (text_a example) ∈ trace run ∧
    outcome run = match outcome first with
                  | inl e => inl e
                  | inr _ => inl (KeyError (Some output_mode))
                  end.
Proof.
  intros Hc Hr. split; [done|]. intros example rest run first.
  assert (∀ lm l, resolve_label float_of_string output_mode lm l
                  = inl (KeyError (Some output_mode))) as Hres.
  { intros lm l. unfold resolve_label. by rewrite !decide_False. }
  assert (outcome run = match outcome first with
                        | inl e => inl e
                        | inr _ => inl (KeyError (Some output_mode))
                        end) as Ho.
  { subst run. unfold convert_examples_to_features, enumerate.
    cbn [enumerate_from convert_loop length].
    rewrite outcome_bind, outcome_convert_example. fold first.
    destruct (outcome first) as [e|[[[[tokens ids] mask] segs] epa]]; [done|].
    by rewrite Hres. }
  assert (trace run = trace first) as Ht.
  { subst run. unfold convert_examples_to_features, enumerate.
    cbn [enumerate_from convert_loop length].
    rewrite trace_bind, outcome_convert_example. fold first.
    assert (trace (body (S (length rest)) 0 example) = trace first) as ->.
    { unfold convert_example. rewrite trace_bind. fold first.
      destruct (outcome first) as [e|[[[[tokens ids] mask] segs] epa]];
        [by rewrite app_nil_r|].
      rewrite trace_bind, outcome_lift, Hres. by rewrite app_nil_r. }
    destruct (outcome first) as [e|[[[[tokens ids] mask] segs] epa]];
      [by rewrite app_nil_r|].
    by rewrite Hres, app_nil_r. }
  split; [done|]. split; [|done].
  rewrite Ht. apply trace_encode_example_tokenize.
Qed.

(** C7.  For a list of distinct labels, the label map sends the label at
    each position to that position (and classification resolves the label to
    it), and every entry of the map is a position together with the label
    found there: the map is a bijection between the labels and the positions
    [0 .. length label_list - 1]. *)
Theorem label_map_is_position :
  NoDup label_list →
  (∀ i s, label_list !! i = Some s →
     make_label_map label_list !! s = Some i ∧
     resolve_label float_of_string "classification" (make_label_map label_list) (Some s)
       = inr (LabelIndex i)) ∧
  (∀ s i, make_label_map label_list !! s = Some i → label_list !! i = Some s) ∧
  (∀ i, (i < length label_list)%nat ↔ ∃ s, make_label_map label_list !! s = Some i) ∧
  (∀ s, s ∈ label_list ↔ ∃ i, make_label_map label_list !! s = Some i).
Proof.
  intros Hnd. split; [|split; [|split]].
  - intros i s Hi. pose proof (make_label_map_index _ _ _ Hnd Hi) as Hm.
    split; [done|]. unfold resolve_label. by rewrite decide_True, Hm.
  - apply make_label_map_Some.
  - intros i. split.
    + intros Hi. apply lookup_lt_is_Some_2 in Hi as [s Hs].
      exists s. by apply make_label_map_index.
    + intros [s Hs]. apply make_label_map_Some in Hs. by eapply lookup_lt_Some.
  - intros s. split.
    + intros Hs. apply list_elem_of_lookup in Hs as [i Hi].
      exists i. by apply make_label_map_index.
    + intros [i Hi]. apply make_label_map_Some in Hi. by eapply list_elem_of_lookup_2.
Qed.

(** C8.  In classification mode the label resolution fails, with
    [KeyError], exactly when the example's label is not in [label_list], and
    otherwise returns a position of the label in that list.  In regression
    mode it fails, with [ValueError] or [TypeError], exactly when the label
    is not a string that [float] reads, and otherwise returns the float.  The
    loop body passes a failure on, and puts a result into the feature unless
    the example is one of the first five and the report on it fails to print
    the label id (a NaN or an infinity under [%d]). *)
Theorem label_resolution_errors (l : option string) (label_map : gmap string nat) :
  (let r := resolve_label float_of_string "classification" (make_label_map label_list) l in
   ((∃ e, r = inl e) ↔ ¬ ∃ s, l = Some s ∧ s ∈ label_list) ∧
   (∀ e, r = inl e → e = KeyError l) ∧
   (∀ s, l = Some s → s ∈ label_list →
      ∃ i, r = inr (LabelIndex i) ∧ label_list !! i = Some s)) ∧
  (let r := resolve_label float_of_string "regression" label_map l in
   ((∃ e, r = inl e) ↔ ¬ ∃ s x, l = Some s ∧ float_of_string s = Some x) ∧
   (∀ e, r = inl e → e = TypeError ∨ ∃ s, l = Some s ∧ e = ValueError s) ∧
   (∀ s x, l = Some s → float_of_string s = Some x → r = inr (LabelFloat x))) ∧
  (∀ n i example,
     outcome (body n i example) =
     match outcome (encode_example max_seq_length tokenizer cfg epa_infos n i example) with
     | inl e => inl e
     | inr (tokens, ids, mask, segs, epa) =>
         match resolve_label float_of_string output_mode (make_label_map label_list)
                 (label example) with
         | inl e => inl e
         | inr lid =>
             match (if Z.of_nat i <? 5 then percent_d lid else inr ()) with
             | inl e => inl e
             | inr _ => inr {| input_ids := ids; input_mask := mask; segment_ids := segs;
                               label_id := lid; epa_vec := epa |}
             end
         end
     end).
Proof.
  split; [|split]; [| |apply outcome_convert_example].
  - cbv zeta. unfold resolve_label. rewrite decide_True by done.
    destruct l as [s|].
    + destruct (make_label_map label_list !! s) as [i|] eqn:E.
      * pose proof (make_label_map_Some _ _ _ E) as Hi.
        assert (s ∈ label_list) by by eapply list_elem_of_lookup_2.
        split; [split|split].
        -- by intros [e ?].
        -- intros []. by exists s.
        -- done.
        -- intros s' [= <-] _. by exists i.
      * apply make_label_map_None in E.
        split; [split|split].
        -- intros _ (s' & [= <-] & Hs). done.
        -- intros _. by eexists.
        -- by intros e [= <-].
        -- by intros s' [= <-] Hs.
    + split; [split|split].
      * by intros _ (s & ? & _).
      * intros _. by eexists.
      * by intros e [= <-].
      * done.
  - cbv zeta. unfold resolve_label.
    rewrite decide_False by done. rewrite decide_True by done.
    destruct l as [s|].
    + destruct (float_of_string s) as [x|] eqn:E.
      * split; [split|split].
        -- by intros [e ?].
        -- intros []. by exists s, x.
        -- done.
        -- intros s' x' [= <-]. rewrite E. by intros [= <-].
      * split; [split|split].
        -- intros _ (s' & x & [= <-] & Hx). congruence.
        -- intros _. by eexists.
        -- intros e [= <-]. right. by exists s.
        -- intros s' x [= <-]. congruence.
    + split; [split|split].
      * by intros _ (s & x & ? & _).
      * intros _. by eexists.
      * intros e [= <-]. by left.
      * done.
Qed.

End Claims.

(** ** The scenarios *)

Lemma scenario_single_and_long :
  outcome (scenario_run "classification" default_config 8 [example_single; example_long])
  = inr [features_single; features_long].
Proof. reflexivity. Qed.

Lemma scenario_xlnet :
  outcome (scenario_run "classification" xlnet_config 8 [example_single])
  = inr [features_xlnet].
Proof. reflexivity. Qed.

(** C2.  On the example [text_a = "a b c"], [text_b = "d e"], [label = "1"]
    with 10 positions, the default configuration, classification and the
    labels [["0"; "1"]], nothing is truncated, but the call ends in
    [AssertionError] and returns no feature: after padding, the ids, the mask
    and the segment ids have 10 items and [epa_vec] has 7. *)
Theorem scenario_pair_raises_assertion :
  scenario_run "classification" default_config 10 [example_pair]
  = ([LoggerInfo (WritingExample 0 1); CallTokenizeEpa "a b c"; CallTokenize "d e";
      CallConvertTokensToIds ["[CLS]"; "a"; "b"; "c"; "[SEP]"; "d"; "e"; "[SEP]"]],
     inl AssertionError) ∧
  outcome (tokenize_and_truncate 10 whitespace_tokenizer default_config None example_pair)
  = inr (["a"; "b"; "c"], Some ["d"; "e"], [1; 1; 1]%float) ∧
  assemble default_config ["a"; "b"; "c"] (Some ["d"; "e"]) [1; 1; 1]%float
  = (["[CLS]"; "a"; "b"; "c"; "[SEP]"; "d"; "e"; "[SEP]"],
     [1; 1; 1; 1; 1]%float, [1; 0; 0; 0; 0; 1; 1; 1]) ∧
  pad 10 default_config [5; 1; 1; 1; 5; 1; 1; 5] [1; 0; 0; 0; 0; 1; 1; 1] [1; 1; 1; 1; 1]%float
  = ([5; 1; 1; 1; 5; 1; 1; 5; 0; 0], [1; 1; 1; 1; 1; 1; 1; 1; 0; 0],
     [1; 0; 0; 0; 0; 1; 1; 1; 0; 0], [1; 1; 1; 1; 1; 0; 0]%float).
Proof. split; [reflexivity|]. split; [reflexivity|]. split; reflexivity. Qed.

(** C1 at the same example. *)
Lemma pair_example_fails_length_check_witness :
  outcome (scenario_run "classification" default_config 10 [example_pair])
  = inl AssertionError.
Proof.
  apply (pair_example_fails_length_check toy_float ["0"; "1"] 10 whitespace_tokenizer
           "classification" default_config None example_pair [] "d e"
           ["a"; "b"; "c"] [1; 1; 1]%float);
    [reflexivity | reflexivity | reflexivity | discriminate | vm_compute; discriminate].
Defined.

(** C4 as stated fails: with the output mode ["foo"] the first example is
    tokenized and its tokens are converted to ids before the call fails, and
    with no examples the call does not fail at all. *)
Lemma unknown_output_mode_found_late :
  scenario_run "foo" default_config 8 [example_single; example_long]
  = ([LoggerInfo (WritingExample 0 2); CallTokenizeEpa "a b c";
      CallConvertTokensToIds ["[CLS]"; "a"; "b"; "c"; "[SEP]"]],
     inl (KeyError (Some "foo"))) ∧
  scenario_run "foo" default_config 8 [example_single; example_long]
  ≠ ([], inl (KeyError (Some "foo"))) ∧
  scenario_run "foo" default_config 8 [] = ([], inr []).
Proof. split; [reflexivity|]. split; [discriminate|reflexivity]. Qed.

Lemma unknown_output_mode_fails_in_first_pass_witness :
  scenario_run "foo" default_config 8 [] = ([], inr []) ∧
  ∀ example rest,
    let run := scenario_run "foo" default_config 8 (example :: rest) in
    let first := encode_example 8 whitespace_tokenizer default_config None
                   (S (length rest)) 0 example in
    trace run = trace first ∧
    CallTokenizeEpa (text_a example) ∈ trace run ∧
    outcome run = match outcome first with
                  | inl e => inl e
                  | inr _ => inl (KeyError (Some "foo"))
                  end.
Proof.
  apply (unknown_output_mode_fails_in_first_pass toy_float ["0"; "1"] 8
           whitespace_tokenizer "foo" default_config None); discriminate.
Defined.

(** C6 as stated fails: with padding on the left and the class token first,
    position 0 holds the segment id of the padding, not that of the class
    token. *)
Lemma cls_segment_not_first_with_left_padding :
  outcome (scenario_run "classification" pad_left_config 8 [example_single])
  = inr [features_pad_left] ∧
  cls_token_at_end pad_left_config = false ∧
  segment_ids features_pad_left !! 0%nat = Some 0 ∧
  segment_ids features_pad_left !! 0%nat ≠ Some (cls_token_segment_id pad_left_config).
Proof.
  split; [reflexivity|]. split; [reflexivity|]. split; [reflexivity|discriminate].
Qed.

Lemma cls_segment_at_real_end_witness :
  ∃ n padding_length : nat,
    (0 < n)%nat ∧ (n + padding_length)%nat = Z.to_nat 8 ∧
    input_mask features_xlnet =
      (if pad_on_left xlnet_config
       then replicate padding_length (pad_mask xlnet_config) ++ replicate n (real_mask xlnet_config)
       else replicate n (real_mask xlnet_config) ++ replicate padding_length (pad_mask xlnet_config)) ∧
    let first_real := if pad_on_left xlnet_config then padding_length else 0%nat in
    let last_real := (first_real + n - 1)%nat in
    segment_ids features_xlnet !! (if cls_token_at_end xlnet_config then last_real else first_real)
      = Some (cls_token_segment_id xlnet_config).
Proof.
  apply (cls_segment_at_real_end toy_float ["0"; "1"] 8 whitespace_tokenizer
           "classification" xlnet_config None [example_single] [features_xlnet]
           scenario_xlnet 0%nat features_xlnet).
  reflexivity.
Defined.

Lemma features_follow_examples_witness :
  length [features_single; features_long] = length [example_single; example_long] ∧
  ∀ i example, [example_single; example_long] !! i = Some example →
    ∃ f, [features_single; features_long] !! i = Some f ∧
         outcome (convert_example toy_float 8 whitespace_tokenizer "classification"
                    default_config None (make_label_map ["0"; "1"])
                    (length [example_single; example_long]) i example) = inr f.
Proof.
  apply (features_follow_examples toy_float ["0"; "1"] 8 whitespace_tokenizer
           "classification" default_config None).
  reflexivity.
Defined.

Lemma scenario_inverted_mask :
  outcome (scenario_run "classification" inverted_mask_config 8 [example_single])
  = inr [features_inverted].
Proof. reflexivity. Qed.

Lemma padding_is_contiguous_witness :
  ∃ example tokens_a tokens_b epa_a tokens epa segs,
    [example_single] !! 0%nat = Some example ∧
    outcome (tokenize_and_truncate 8 whitespace_tokenizer inverted_mask_config None example)
      = inr (tokens_a, tokens_b, epa_a) ∧
    assemble inverted_mask_config tokens_a tokens_b epa_a = (tokens, epa, segs) ∧
    let ids := convert_tokens_to_ids whitespace_tokenizer tokens in
    let padding_length := Z.to_nat (8 - len ids) in
    let real_value := if mask_padding_with_zero inverted_mask_config then 1 else 0 in
    let pad_value := if mask_padding_with_zero inverted_mask_config then 0 else 1 in
    pad_value = 1 - real_value ∧
    (length ids + padding_length)%nat = Z.to_nat 8 ∧
    length segs = length ids ∧ length epa = length ids ∧
    if pad_on_left inverted_mask_config then
      input_ids features_inverted
        = replicate padding_length (pad_token inverted_mask_config) ++ ids ∧
      input_mask features_inverted
        = replicate padding_length pad_value ++ replicate (length ids) real_value ∧
      segment_ids features_inverted
        = replicate padding_length (pad_token_segment_id inverted_mask_config) ++ segs ∧
      epa_vec features_inverted = replicate padding_length 0.0%float ++ epa
    else
      input_ids features_inverted
        = ids ++ replicate padding_length (pad_token inverted_mask_config) ∧
      input_mask features_inverted
        = replicate (length ids) real_value ++ replicate padding_length pad_value ∧
      segment_ids features_inverted
        = segs ++ replicate padding_length (pad_token_segment_id inverted_mask_config) ∧
      epa_vec features_inverted = epa ++ replicate padding_length 0.0%float.
Proof.
  apply (padding_is_contiguous toy_float ["0"; "1"] 8 whitespace_tokenizer
           "classification" inverted_mask_config None [example_single]
           [features_inverted] scenario_inverted_mask 0%nat features_inverted).
  reflexivity.
Defined.

(** The same reading of the default configuration: the mask of
    [example_single] is five 1s followed by three 0s, and that of the
    inverted convention three 1s followed by five 0s. *)
Lemma padding_of_the_scenarios :
  input_mask features_single = replicate 5 1 ++ replicate 3 0 ∧
  input_ids features_single = [5; 1; 1; 1; 5] ++ replicate 3 0 ∧
  input_mask features_inverted = replicate 3 1 ++ replicate 5 0 ∧
  input_ids features_inverted = replicate 3 0 ++ [5; 1; 1; 1; 5].
Proof. done. Qed.

Lemma label_map_is_position_witness :
  make_label_map ["0"; "1"] !! "1" = Some 1%nat ∧
  resolve_label toy_float "classification" (make_label_map ["0"; "1"]) (Some "1")
    = inr (LabelIndex 1).
Proof.
  refine (proj1 (label_map_is_position toy_float ["0"; "1"] _) 1%nat "1" _);
    [|reflexivity].
  apply NoDup_cons. split; [|apply NoDup_singleton].
  intros H. apply list_elem_of_singleton in H. discriminate H.
Defined.

Lemma truncate_seq_pair_terminates_witness :
  (∀ e, truncate_body ["a"; "b"; "c"] ["d"] 2 ≠ Raise e) ∧
  (∀ a1 b1, truncate_body ["a"; "b"; "c"] ["d"] 2 = Continue a1 b1 →
     len a1 + len b1 = len ["a"; "b"; "c"] + len ["d"] - 1 ∧
     2 < len ["a"; "b"; "c"] + len ["d"]) ∧
  ∃ a' b',
    (∀ fuel, (length ["a"; "b"; "c"] + length ["d"] < fuel)%nat →
       truncate_loop fuel ["a"; "b"; "c"] ["d"] 2 = Some (inr (a', b'))) ∧
    _truncate_seq_pair ["a"; "b"; "c"] ["d"] 2 = inr (a', b') ∧
    len a' + len b' = Z.min (len ["a"; "b"; "c"] + len ["d"]) 2.
Proof. apply (truncate_seq_pair_terminates ["a"; "b"; "c"] ["d"] 2). lia. Defined.

(** * Further properties *)

(** ** [_truncate_seq_pair] beyond the rule *)

Section TruncateMore.
Context {A : Type}.
Implicit Types (a b : list A) (m : Z).

Lemma truncation_rule_balance m a b a' b' :
  truncation_rule m a b a' b' →
  (length a' ≤ length a)%nat ∧ (length b' ≤ length b)%nat ∧
  ((length a' < length a)%nat → (length b' ≤ length a')%nat) ∧
  ((length b' < length b)%nat → (length a' ≤ length b' + 1)%nat).
Proof.
  induction 1 as [a b Hfit | a b x a' b' Hm Hab _ IH | a b x a' b' Hm Hab _ IH].
  - lia.
  - rewrite len_app in *. unfold len in *. rewrite length_app. simpl in *. lia.
  - rewrite len_app in *. unfold len in *. rewrite length_app. simpl in *. lia.
Qed.

Lemma truncate_negative_raises a b m :
  m < 0 → _truncate_seq_pair a b m = inl IndexError.
Proof.
  intros Hm. remember (length a + length b)%nat as n eqn:En.
  revert a b En. induction n as [n IH] using lt_wf_ind. intros a b ->.
  rewrite truncate_seq_pair_unfold.
  destruct (Z.lt_ge_cases (len b) (len a)) as [Hab|Hab].
  - destruct (truncate_body_a a b m) as (x & a1 & -> & ->).
    { pose proof (len_nonneg a). pose proof (len_nonneg b). lia. }
    { done. }
    apply (IH (length a1 + length b)%nat); [rewrite length_app; simpl; lia|done].
  - unfold truncate_body. cbv zeta.
    destruct (Z.leb_spec (len a + len b) m) as [Hfit|_].
    { pose proof (len_nonneg a). pose proof (len_nonneg b). lia. }
    rewrite Z.gtb_ltb. destruct (Z.ltb_spec (len b) (len a)); [lia|].
    destruct b as [|y b _] using rev_ind; [done|].
    rewrite pop_snoc.
    apply (IH (length a + length b)%nat); [rewrite length_app; simpl; lia|done].
Qed.

(** With a negative budget a pass either removes one item, or finds both
    lists empty and raises. *)
Lemma truncate_body_negative a b m :
  m < 0 →
  (a = [] ∧ b = [] ∧ truncate_body a b m = Raise IndexError) ∨
  (∃ a1 b1, truncate_body a b m = Continue a1 b1 ∧
            (S (length a1 + length b1) = length a + length b)%nat).
Proof.
  intros Hm. pose proof (len_nonneg a) as Ha. pose proof (len_nonneg b) as Hb.
  destruct (Z.lt_ge_cases (len b) (len a)) as [Hab|Hab].
  - right. destruct (truncate_body_a a b m) as (x & a1 & -> & ->); [lia|done|].
    exists a1, b. split; [done|]. rewrite length_app. simpl. lia.
  - unfold truncate_body. cbv zeta.
    destruct (Z.leb_spec (len a + len b) m) as [Hfit|_]; [lia|].
    rewrite Z.gtb_ltb. destruct (Z.ltb_spec (len b) (len a)); [lia|].
    destruct b as [|y b _] using rev_ind.
    + left. destruct a as [|z a]; [done|]. unfold len in Hab. simpl in Hab. lia.
    + right. rewrite pop_snoc. exists a, b. split; [done|].
      rewrite length_app. simpl. lia.
Qed.

(** The final contents are those of [truncate_lists] when the loop ends
    with [break]. *)
Lemma truncate_lists_of_loop fuel : ∀ a b m a' b',
  truncate_loop fuel a b m = Some (inr (a', b')) → truncate_lists fuel a b m = (a', b').
Proof.
  induction fuel as [|fuel IH]; intros a b m a' b'; [done|].
  cbn [truncate_loop truncate_lists].
  destruct (truncate_body a b m) as [|a1 b1|e]; [by intros [= <- <-]|apply IH|done].
Qed.

(** X1.  With a negative budget the loop never sees the lists fit: every
    pass removes one item for as long as there is one, so that no run of at
    most [len(tokens_a) + len(tokens_b)] passes ends; the next pass finds
    both lists empty, pops the empty [tokens_b] and raises [IndexError],
    leaving the caller's two lists empty. *)
Theorem truncate_seq_pair_negative_budget a b m :
  m < 0 →
  (∀ fuel, (fuel ≤ length a + length b)%nat →
     truncate_loop fuel a b m = None ∧
     (length (truncate_lists fuel a b m).1 + length (truncate_lists fuel a b m).2
      = length a + length b - fuel)%nat) ∧
  (∀ fuel, (length a + length b < fuel)%nat →
     truncate_loop fuel a b m = Some (inl IndexError) ∧
     truncate_lists fuel a b m = ([], [])) ∧
  truncate_body (A:=A) [] [] m = Raise IndexError ∧
  _truncate_seq_pair a b m = inl IndexError.
Proof.
  intros Hm. split; [|split; [|split]].
  - intros fuel. revert a b. induction fuel as [|fuel IH]; intros a b Hf.
    { split; [done|]. simpl. lia. }
    cbn [truncate_loop truncate_lists].
    destruct (truncate_body_negative a b m Hm) as [(-> & -> & _)|(a1 & b1 & -> & Hl)];
      [simpl in Hf; lia|].
    destruct (IH a1 b1) as [-> ->]; [lia|]. split; [done|lia].
  - intros fuel. revert a b. induction fuel as [|fuel IH]; intros a b Hf; [lia|].
    cbn [truncate_loop truncate_lists].
    destruct (truncate_body_negative a b m Hm) as [(-> & -> & ->)|(a1 & b1 & -> & Hl)];
      [done|].
    apply IH. lia.
  - by destruct (truncate_body_negative [] [] m Hm) as [(_ & _ & ->)|(a1 & b1 & _ & Hl)].
  - by apply truncate_negative_raises.
Qed.

(** X2.  With a budget that is not negative, each list keeps a prefix of
    itself, and the cut is balanced: a list that lost an item is left no
    shorter than the other one ([tokens_b] at most one item shorter than
    [tokens_a]). *)
Theorem truncate_seq_pair_balanced a b m :
  0 ≤ m →
  ∃ a' b', _truncate_seq_pair a b m = inr (a', b') ∧
    a' = take (length a') a ∧ b' = take (length b') b ∧
    ((length a' < length a)%nat → (length b' ≤ length a')%nat) ∧
    ((length b' < length b)%nat → (length a' ≤ length b' + 1)%nat).
Proof.
  intros H0. destruct (truncate_seq_pair_rule a b m H0) as (a' & b' & Hs & Hr).
  exists a', b'. split; [done|].
  destruct (truncation_rule_prefix _ _ _ _ _ Hr) as [[ka ->] [kb ->]].
  apply truncation_rule_balance in Hr as (_ & _ & Ha & Hb).
  by rewrite !take_app_length.
Qed.

(** X3.  Truncating to [m1] and then to [m2] is truncating to the smaller
    budget; in particular a second truncation to the same budget changes
    nothing. *)
Theorem truncate_seq_pair_twice a b m1 m2 :
  0 ≤ m1 → 0 ≤ m2 →
  ('(a', b') ← _truncate_seq_pair a b m1; _truncate_seq_pair a' b' m2)
  = _truncate_seq_pair a b (Z.min m1 m2).
Proof.
  intros H1 H2. destruct (truncate_seq_pair_rule a b m1 H1) as (a' & b' & -> & Hr).
  simpl. induction Hr as [a b Hfit | a b x a' b' Hm Hab _ IH | a b x a' b' Hm Hab _ IH].
  - destruct (Z.le_gt_cases m1 m2).
    + rewrite Z.min_l by done.
      rewrite !truncate_seq_pair_unfold, !truncate_body_break by lia. done.
    + by rewrite Z.min_r by lia.
  - rewrite IH. symmetry. rewrite truncate_seq_pair_unfold.
    destruct (truncate_body_a (a ++ [x]) b (Z.min m1 m2)) as (y & a1 & E & ->); [lia..|].
    by apply app_inj_tail in E as [-> _].
  - rewrite IH. symmetry. rewrite truncate_seq_pair_unfold.
    destruct (truncate_body_b a (b ++ [x]) (Z.min m1 m2)) as (y & b1 & E & ->); [lia..|].
    by apply app_inj_tail in E as [-> _].
Qed.

End TruncateMore.

Lemma truncate_seq_pair_negative_budget_witness :
  (∀ fuel, (fuel ≤ length ["a"; "b"] + length ["c"])%nat →
     truncate_loop fuel ["a"; "b"] ["c"] (-1) = None ∧
     (length (truncate_lists fuel ["a"; "b"] ["c"] (-1)).1
      + length (truncate_lists fuel ["a"; "b"] ["c"] (-1)).2
      = length ["a"; "b"] + length ["c"] - fuel)%nat) ∧
  (∀ fuel, (length ["a"; "b"] + length ["c"] < fuel)%nat →
     truncate_loop fuel ["a"; "b"] ["c"] (-1) = Some (inl IndexError) ∧
     truncate_lists fuel ["a"; "b"] ["c"] (-1) = ([], [])) ∧
  truncate_body (A:=string) [] [] (-1) = Raise IndexError ∧
  _truncate_seq_pair ["a"; "b"] ["c"] (-1) = inl IndexError.
Proof. apply (truncate_seq_pair_negative_budget ["a"; "b"] ["c"] (-1)). lia. Defined.

Lemma truncate_seq_pair_balanced_witness :
  ∃ a' b', _truncate_seq_pair ["a"; "b"; "c"; "d"; "e"] ["x"; "y"; "z"] 5 = inr (a', b') ∧
    a' = take (length a') ["a"; "b"; "c"; "d"; "e"] ∧ b' = take (length b') ["x"; "y"; "z"] ∧
    ((length a' < length ["a"; "b"; "c"; "d"; "e"])%nat → (length b' ≤ length a')%nat) ∧
    ((length b' < length ["x"; "y"; "z"])%nat → (length a' ≤ length b' + 1)%nat).
Proof.
  apply (truncate_seq_pair_balanced ["a"; "b"; "c"; "d"; "e"] ["x"; "y"; "z"] 5). lia.
Defined.

Lemma truncate_seq_pair_twice_witness :
  ('(a', b') ← _truncate_seq_pair ["a"; "b"; "c"; "d"] ["x"; "y"] 5;
   _truncate_seq_pair a' b' 3)
  = _truncate_seq_pair ["a"; "b"; "c"; "d"] ["x"; "y"] (Z.min 5 3).
Proof. apply (truncate_seq_pair_twice ["a"; "b"; "c"; "d"] ["x"; "y"] 5 3); lia. Defined.

(** ** [convert_examples_to_features] beyond the claims *)

Section ConvertMore.
Context {EpaInfos : Type}.
Variable float_of_string : string → option float.
Variable label_list : list string.
Variable max_seq_length : Z.
Variable tokenizer : Tokenizer EpaInfos.
Variable output_mode : string.
Variable cfg : Config.
Variable epa_infos : option EpaInfos.

Local Abbreviation convert :=
  (convert_examples_to_features float_of_string label_list max_seq_length tokenizer
     output_mode cfg epa_infos).
Local Abbreviation body :=
  (convert_example float_of_string max_seq_length tokenizer output_mode cfg epa_infos).
Local Abbreviation encode := (encode_example max_seq_length tokenizer cfg epa_infos).
Local Abbreviation loop :=
  (convert_loop float_of_string max_seq_length tokenizer output_mode cfg epa_infos).

(** Only the log depends on the position of an example and on the number
    of examples. *)
Lemma outcome_encode_example_position n i n' i' example :
  outcome (encode n i example) = outcome (encode n' i' example).
Proof. unfold encode_example. by rewrite !outcome_bind, !outcome_when_emit. Qed.

(** Outside regression mode a label id is an index, which [%d] prints. *)
Lemma percent_d_not_regression lm l lid :
  output_mode ≠ "regression" →
  resolve_label float_of_string output_mode lm l = inr lid → percent_d lid = inr ().
Proof.
  intros Hmode. unfold resolve_label.
  destruct (decide (output_mode = "classification")).
  - destruct l as [s|]; [|done]. destruct (lm !! s); [|done]. by intros [= <-].
  - by rewrite decide_False by done.
Qed.

Lemma outcome_convert_example_position lm n i n' i' example :
  output_mode ≠ "regression" →
  outcome (body lm n i example) = outcome (body lm n' i' example).
Proof.
  intros Hmode. rewrite !outcome_convert_example.
  rewrite (outcome_encode_example_position n i n' i').
  destruct (outcome (encode n' i' example)) as [e|[[[[tokens ids] mask] segs] epa]]; [done|].
  destruct (resolve_label _ _ _ _) as [e|lid] eqn:El; [done|].
  rewrite (percent_d_not_regression _ _ _ Hmode El).
  by destruct (Z.of_nat i <? 5), (Z.of_nat i' <? 5).
Qed.

Lemma outcome_loop_acc lm n n' start start' examples acc :
  output_mode ≠ "regression" →
  outcome (loop lm n (enumerate_from start examples) acc) =
  match outcome (loop lm n' (enumerate_from start' examples) []) with
  | inl e => inl e
  | inr fs => inr (acc ++ fs)
  end.
Proof.
  intros Hmode.
  revert n start start' acc. induction examples as [|example examples IH];
    intros n start start' acc; cbn [enumerate_from convert_loop].
  { by rewrite !outcome_mret, app_nil_r. }
  rewrite !outcome_bind.
  rewrite (outcome_convert_example_position lm n start n' start') by done.
  destruct (outcome (body lm n' start' example)) as [e|f]; [done|].
  rewrite (IH n (S start) (S start') (acc ++ [f])).
  rewrite (IH n' (S start') (S start') ([] ++ [f])).
  destruct (outcome (loop lm n' (enumerate_from (S start') examples) [])) as [e|fs];
    [done|].
  by rewrite <- app_assoc.
Qed.

Lemma outcome_loop_app lm n start l1 l2 acc :
  outcome (loop lm n (enumerate_from start (l1 ++ l2)) acc) =
  match outcome (loop lm n (enumerate_from start l1) acc) with
  | inl e => inl e
  | inr acc' => outcome (loop lm n (enumerate_from (start + length l1) l2) acc')
  end.
Proof.
  revert start acc. induction l1 as [|example l1 IH]; intros start acc;
    cbn [enumerate_from convert_loop app length].
  { by rewrite outcome_mret, Nat.add_0_r. }
  rewrite !outcome_bind.
  destruct (outcome (body lm n start example)) as [e|f]; [done|].
  rewrite IH. by replace (S start + length l1)%nat with (start + S (length l1))%nat by lia.
Qed.

(** X4.  Outside regression mode the feature of an example does not depend
    on where the example stands or on what stands beside it: converting
    [l1 ++ l2] gives the features of [l1] followed by those of [l2], and
    fails, with the first error and no features at all, as soon as one of the
    two conversions fails. *)
Theorem convert_examples_app (l1 l2 : list InputExample) :
  output_mode ≠ "regression" →
  outcome (convert (l1 ++ l2)) =
  match outcome (convert l1) with
  | inl e => inl e
  | inr fs1 =>
      match outcome (convert l2) with
      | inl e => inl e
      | inr fs2 => inr (fs1 ++ fs2)
      end
  end.
Proof.
  intros Hmode. unfold convert_examples_to_features, enumerate.
  rewrite outcome_loop_app.
  rewrite (outcome_loop_acc _ (length (l1 ++ l2)) (length l1) 0 0 l1 []) by done.
  destruct (outcome (loop _ (length l1) (enumerate_from 0 l1) [])) as [e|fs1]; [done|].
  simpl. by rewrite (outcome_loop_acc _ (length (l1 ++ l2)) (length l2) _ 0 l2 fs1).
Qed.


Lemma enumerate_from_elem {X} (l : list X) (start i : nat) (x : X) :
  (i, x) ∈ enumerate_from start l → x ∈ l.
Proof.
  intros H. apply list_elem_of_lookup in H as [k Hk].
  rewrite enumerate_from_lookup in Hk.
  destruct (l !! k) as [y|] eqn:E; [|done]. injection Hk as _ ->.
  by eapply list_elem_of_lookup_2.
Qed.

Lemma outcome_loop_all lm n todo acc :
  Forall (λ p, ∃ f, outcome (body lm n p.1 p.2) = inr f) todo →
  ∃ fs, outcome (loop lm n todo acc) = inr fs.
Proof.
  revert acc. induction todo as [|[i example] todo IH]; intros acc H;
    cbn [convert_loop].
  { eexists. by rewrite outcome_mret. }
  apply Forall_cons in H as [[f Hf] H]. simpl in Hf.
  rewrite outcome_bind, Hf. by apply IH.
Qed.

(** X5.  Examples without a second text convert: with room for the special
    tokens, a tokenizer that returns one weight and one id per token, and
    labels that resolve to an index or to a finite float (one that [%d]
    prints), the function returns one feature per example, each with four
    lists of exactly [max_seq_length] items. *)
Theorem single_text_examples_convert (examples : list InputExample) :
  (if sep_token_extra cfg then 3 else 2) ≤ max_seq_length →
  (∀ tokens, length (convert_tokens_to_ids tokenizer tokens) = length tokens) →
  (∀ text, length (tokenize_epa tokenizer text epa_infos).2
           = length (tokenize_epa tokenizer text epa_infos).1) →
  Forall (λ example,
            truthy_text (text_b example) = None ∧
            ∃ lid, resolve_label float_of_string output_mode (make_label_map label_list)
                     (label example) = inr lid ∧
                   percent_d lid = inr ()) examples →
  ∃ fs, outcome (convert examples) = inr fs ∧
        length fs = length examples ∧
        Forall (λ f, len (input_ids f) = max_seq_length ∧
                     len (input_mask f) = max_seq_length ∧
                     len (segment_ids f) = max_seq_length ∧
                     len (epa_vec f) = max_seq_length) fs.
Proof.
  intros Hmax Hids Hepa Hex.
  assert (∃ fs, outcome (convert examples) = inr fs) as [fs Hfs].
  { unfold convert_examples_to_features. apply outcome_loop_all.
    apply Forall_forall. intros [i example] Hin. simpl.
    apply enumerate_from_elem in Hin.
    rewrite Forall_forall in Hex. destruct (Hex _ Hin) as [Hb (lid & Hl & Hd)].
    rewrite outcome_convert_example.
    destruct (tokenize_epa tokenizer (text_a example) epa_infos) as [ta ea] eqn:Et.
    destruct (encode_single_passes max_seq_length tokenizer cfg epa_infos
                (length examples) i example ta ea Hb Et) as [r ->]; [|done..|].
    { specialize (Hepa (text_a example)). by rewrite Et in Hepa. }
    destruct r as [[[[tokens ids] mask] segs] epa]. rewrite Hl, Hd.
    destruct (Z.of_nat i <? 5); by eexists. }
  exists fs. split; [done|].
  apply convert_examples_to_features_inr in Hfs as [Hlen H].
  split; [done|]. apply Forall_forall. intros f Hf.
  apply list_elem_of_lookup in Hf as [i Hi].
  destruct (H i) as [_ H']. destruct (H' f Hi) as (example & _ & Ho).
  by apply convert_example_inr in Ho as (? & ? & ? & ? & ? & ? & _ & _ & _ & ? & ? & ? & ? & _).
Qed.

Lemma pad_lengths ids0 segs0 epa0 ids mask segs epa :
  pad max_seq_length cfg ids0 segs0 epa0 = (ids, mask, segs, epa) →
  let p := Z.max 0 (max_seq_length - len ids0) in
  len ids = len ids0 + p ∧ len mask = len ids0 + p ∧
  len segs = len segs0 + p ∧ len epa = len epa0 + p.
Proof.
  unfold pad. cbv zeta. intros H.
  destruct (pad_on_left cfg); injection H as <- <- <- <-;
    rewrite !len_app, !len_py_repeat; unfold len; lia.
Qed.

Lemma pad_exact ids0 segs0 epa0 :
  len ids0 = max_seq_length →
  pad max_seq_length cfg ids0 segs0 epa0
  = (ids0, replicate (Z.to_nat max_seq_length) (real_mask cfg), segs0, epa0).
Proof.
  intros H. unfold pad. cbv zeta. rewrite H, Z.sub_diag. unfold py_repeat.
  simpl. rewrite !app_nil_r. by destruct (pad_on_left cfg).
Qed.

Lemma encode_small_single n i example :
  truthy_text (text_b example) = None →
  max_seq_length < (if sep_token_extra cfg then 3 else 2) →
  outcome (encode n i example) = inl AssertionError.
Proof.
  intros Hb Hmax.
  destruct (tokenize_epa tokenizer (text_a example) epa_infos) as [ta ea] eqn:Et.
  unfold encode_example. rewrite outcome_bind, outcome_when_emit, outcome_bind.
  rewrite (outcome_tokenize_single _ _ _ _ _ _ _ Hb Et).
  set (t := if len ta >? _ then _ else _).
  assert (∃ ta' ea', t = (ta', None, ea')) as (ta' & ea' & ->).
  { subst t. destruct (len ta >? _); by eexists _, _. }
  destruct (assemble cfg ta' None ea') as [[tokens epa0] segs0] eqn:Eas.
  rewrite outcome_bind, outcome_emit.
  destruct (pad max_seq_length cfg (convert_tokens_to_ids tokenizer tokens) segs0 epa0)
    as [[[ids mask] segs] epa] eqn:Ep.
  rewrite outcome_bind.
  destruct (outcome (check_lengths max_seq_length ids mask segs epa)) as [e|[]] eqn:Ec.
  { by apply outcome_check_lengths_exn in Ec as ->. }
  exfalso. apply outcome_check_lengths in Ec as (_ & _ & H3 & _).
  apply pad_lengths in Ep as (_ & _ & Hs & _).
  apply assemble_lengths in Eas as (Ht & Hsg & _). simpl in Ht.
  pose proof (len_nonneg ta'). destruct (sep_token_extra cfg); lia.
Qed.

Lemma encode_small_pair n i example text :
  truthy_text (text_b example) = Some text →
  max_seq_length < (if sep_token_extra cfg then 4 else 3) →
  outcome (encode n i example) = inl IndexError.
Proof.
  intros Hb Hmax.
  destruct (tokenize_epa tokenizer (text_a example) epa_infos) as [ta ea] eqn:Et.
  unfold encode_example. rewrite outcome_bind, outcome_when_emit, outcome_bind.
  rewrite (outcome_tokenize_pair _ _ _ _ _ _ _ _ Hb Et).
  by rewrite truncate_negative_raises by (destruct (sep_token_extra cfg); lia).
Qed.

(** X6.  With fewer positions than the class token and the separators need,
    an example without a second text fails a length assertion: the slice
    [tokens_a[:negative]] cannot make room. *)
Theorem too_short_for_single_text (example : InputExample) (rest : list InputExample) :
  truthy_text (text_b example) = None →
  max_seq_length < (if sep_token_extra cfg then 3 else 2) →
  outcome (convert (example :: rest)) = inl AssertionError.
Proof.
  intros Hb Hmax. unfold convert_examples_to_features, enumerate.
  cbn [enumerate_from convert_loop].
  by rewrite outcome_bind, outcome_convert_example, encode_small_single.
Qed.

(** X7.  With fewer positions than the class token and the separators of a
    pair need, an example with a second text fails inside
    [_truncate_seq_pair], with the [IndexError] of popping an empty list. *)
Theorem too_short_for_text_pair (example : InputExample) (rest : list InputExample)
    (text : string) :
  truthy_text (text_b example) = Some text →
  max_seq_length < (if sep_token_extra cfg then 4 else 3) →
  outcome (convert (example :: rest)) = inl IndexError.
Proof.
  intros Hb Hmax. unfold convert_examples_to_features, enumerate.
  cbn [enumerate_from convert_loop].
  by rewrite outcome_bind, outcome_convert_example, (encode_small_pair _ _ _ text).
Qed.

(** X8.  A text with more tokens than fit keeps its first
    [max_seq_length - special_tokens_count] tokens and weights, and the
    lists of the feature are the assembled lists, all real and with no
    padding. *)
Theorem long_text_fills_every_position (n i : nat) (example : InputExample)
    (tokens_a : list string) (epa_a : list float) :
  truthy_text (text_b example) = None →
  tokenize_epa tokenizer (text_a example) epa_infos = (tokens_a, epa_a) →
  length epa_a = length tokens_a →
  (∀ tokens, length (convert_tokens_to_ids tokenizer tokens) = length tokens) →
  let budget := max_seq_length - (if sep_token_extra cfg then 3 else 2) in
  0 ≤ budget < len tokens_a →
  ∃ tokens epa segs,
    assemble cfg (take (Z.to_nat budget) tokens_a) None (take (Z.to_nat budget) epa_a)
      = (tokens, epa, segs) ∧
    outcome (encode n i example)
      = inr (tokens, convert_tokens_to_ids tokenizer tokens,
             replicate (Z.to_nat max_seq_length) (real_mask cfg), segs, epa).
Proof.
  intros Hb Et Hlen Hids budget Hbud.
  destruct (assemble cfg (take (Z.to_nat budget) tokens_a) None
              (take (Z.to_nat budget) epa_a)) as [[tokens epa] segs] eqn:Eas.
  exists tokens, epa, segs. split; [done|].
  unfold encode_example. rewrite outcome_bind, outcome_when_emit, outcome_bind.
  rewrite (outcome_tokenize_single _ _ _ _ _ _ _ Hb Et). fold budget.
  rewrite Z.gtb_ltb. destruct (Z.ltb_spec budget (len tokens_a)); [|lia].
  unfold slice_to. destruct (Z.ltb_spec budget 0); [lia|]. rewrite Eas.
  rewrite outcome_bind, outcome_emit.
  apply assemble_lengths in Eas as (Ht & Hsg & Hep). simpl in Ht.
  assert (len tokens = max_seq_length ∧ len segs = max_seq_length ∧
          len epa = max_seq_length) as (Ht' & Hs' & He').
  { unfold len in *. rewrite !length_take in *. subst budget.
    destruct (sep_token_extra cfg); lia. }
  assert (len (convert_tokens_to_ids tokenizer tokens) = max_seq_length) as Hi.
  { unfold len. rewrite Hids. done. }
  rewrite pad_exact by done.
  rewrite outcome_bind, outcome_check_lengths_ok; [done|done| |done|done].
  unfold len in *. rewrite length_replicate. lia.
Qed.

End ConvertMore.

Lemma single_text_examples_convert_witness :
  ∃ fs, outcome (convert_examples_to_features toy_float ["0"; "1"] 8 whitespace_tokenizer
                   "classification" default_config None [example_single; example_long])
        = inr fs ∧
        length fs = length [example_single; example_long] ∧
        Forall (λ f, len (input_ids f) = 8 ∧ len (input_mask f) = 8 ∧
                     len (segment_ids f) = 8 ∧ len (epa_vec f) = 8) fs.
Proof.
  apply (single_text_examples_convert toy_float ["0"; "1"] 8 whitespace_tokenizer
           "classification" default_config None [example_single; example_long]).
  - simpl. lia.
  - intros tokens. apply length_fmap.
  - intros text. apply length_fmap.
  - repeat constructor; by eexists.
Defined.

Lemma convert_examples_app_witness :
  outcome (convert_examples_to_features toy_float ["0"; "1"] 8 whitespace_tokenizer
             "classification" default_config None ([example_single] ++ [example_long])) =
  match outcome (convert_examples_to_features toy_float ["0"; "1"] 8 whitespace_tokenizer
                   "classification" default_config None [example_single]) with
  | inl e => inl e
  | inr fs1 =>
      match outcome (convert_examples_to_features toy_float ["0"; "1"] 8
                       whitespace_tokenizer "classification" default_config None
                       [example_long]) with
      | inl e => inl e
      | inr fs2 => inr (fs1 ++ fs2)
      end
  end.
Proof.
  apply (convert_examples_app toy_float ["0"; "1"] 8 whitespace_tokenizer
           "classification" default_config None [example_single] [example_long]).
  discriminate.
Defined.


Lemma too_short_for_single_text_witness :
  outcome (convert_examples_to_features toy_float ["0"; "1"] 1 whitespace_tokenizer
             "classification" default_config None [example_single]) = inl AssertionError.
Proof.
  apply (too_short_for_single_text toy_float ["0"; "1"] 1 whitespace_tokenizer
           "classification" default_config None example_single []);
    [reflexivity | simpl; lia].
Defined.

Lemma too_short_for_text_pair_witness :
  outcome (convert_examples_to_features toy_float ["0"; "1"] 2 whitespace_tokenizer
             "classification" default_config None [example_pair]) = inl IndexError.
Proof.
  apply (too_short_for_text_pair toy_float ["0"; "1"] 2 whitespace_tokenizer
           "classification" default_config None example_pair [] "d e");
    [reflexivity | simpl; lia].
Defined.

Lemma long_text_fills_every_position_witness :
  ∃ tokens epa segs,
    assemble default_config
      (take (Z.to_nat (8 - 2)) ["a"; "b"; "c"; "d"; "e"; "f"; "g"; "h"; "i"; "j"; "k"]) None
      (take (Z.to_nat (8 - 2)) [1; 1; 1; 1; 1; 1; 1; 1; 1; 1; 1]%float)
      = (tokens, epa, segs) ∧
    outcome (encode_example 8 whitespace_tokenizer default_config None 1 0 example_long)
      = inr (tokens, convert_tokens_to_ids whitespace_tokenizer tokens,
             replicate (Z.to_nat 8) (real_mask default_config), segs, epa).
Proof.
  apply (long_text_fills_every_position 8 whitespace_tokenizer default_config None
           1 0 example_long
           ["a"; "b"; "c"; "d"; "e"; "f"; "g"; "h"; "i"; "j"; "k"]
           [1; 1; 1; 1; 1; 1; 1; 1; 1; 1; 1]%float).
  - reflexivity.
  - reflexivity.
  - reflexivity.
  - intros tokens. apply length_fmap.
  - simpl. unfold len. simpl. lia.
Defined.

(** ** The label map of a list with repeated labels *)

Lemma fill_label_map_last (l : list string) (start : nat) (m : gmap string nat)
    (k : string) (i : nat) :
  fill_label_map m (enumerate_from start l) !! k = Some i →
  ∀ j, l !! j = Some k → (start + j ≤ i)%nat.
Proof.
  revert start m. induction l as [|x l IH]; intros start m Hi j Hj; [done|].
  simpl in Hi. destruct j as [|j]; simpl in Hj.
  - injection Hj as ->.
    apply fill_lookup_Some in Hi as [[_ Hi]|(j' & -> & _)]; [|lia].
    rewrite lookup_insert_eq in Hi. injection Hi as <-. lia.
  - specialize (IH _ _ Hi j Hj). lia.
Qed.

(** X9.  Without the assumption that the labels are distinct, the label map
    sends a label to its last position in the list: a later duplicate
    overwrites an earlier one. *)
Theorem label_map_last_position (label_list : list string) (s : string) (i : nat) :
  make_label_map label_list !! s = Some i ↔
  label_list !! i = Some s ∧ ∀ j, (i < j)%nat → label_list !! j ≠ Some s.
Proof.
  split.
  - intros H. split; [by apply make_label_map_Some|].
    intros j Hij Hj. pose proof (fill_label_map_last _ _ _ _ _ H j Hj). lia.
  - intros [Hi Hlast].
    destruct (make_label_map label_list !! s) as [i'|] eqn:E.
    + pose proof (fill_label_map_last _ _ _ _ _ E i Hi) as Hle.
      apply make_label_map_Some in E.
      destruct (decide (i = i')) as [->|Hne]; [done|].
      exfalso. apply (Hlast i'); [lia|done].
    + apply make_label_map_None in E. exfalso. apply E.
      by eapply list_elem_of_lookup_2.
Qed.

(** ** The processors *)

Lemma py_index_nonneg {A} (l : list A) (k : Z) :
  0 ≤ k →
  py_index l k = match l !! Z.to_nat k with Some x => inr x | None => inl IndexError end.
Proof.
  intros Hk. unfold py_index. cbv zeta.
  destruct (Z.ltb_spec k 0); [lia|]. by destruct (Z.ltb_spec k 0); [lia|].
Qed.

Lemma py_index_last {A} (l : list A) :
  py_index l (-1) = match last l with Some x => inr x | None => inl IndexError end.
Proof.
  unfold py_index. cbv zeta. simpl. rewrite last_lookup.
  destruct l as [|x l]; [done|].
  destruct (Z.ltb_spec (len (x :: l) + -1) 0) as [H|H].
  { unfold len in H. simpl in H. lia. }
  replace (Z.to_nat (len (x :: l) + -1)) with (pred (length (x :: l)));
    [done|unfold len; simpl; lia].
Qed.

Lemma guid_of_inj (set_type : string) : Inj (=) (=) (guid_of set_type).
Proof.
  intros x y H. unfold guid_of in H.
  apply (String.app_inj set_type) in H. by apply (String.app_inj "-") in H.
Qed.

Section ExpProcessor.
Variable set_type : string.

Local Abbreviation example_of i t l :=
  {| guid := guid_of set_type (pretty i); text_a := t; text_b := None; label := Some l |}.

(** One pass of the loop on a line that is not the first. *)
Lemma exp_loop_cons i line todo v_text_a v_label examples :
  i ≠ 0%nat →
  exp_loop set_type ((i, line) :: todo) v_text_a v_label examples =
  let complaint (column : option string) :=
    match column with Some _ => [] | None => [PrintInt i; PrintLine line] end in
  let out_a := complaint (line !! 0%nat) in
  let out_l := complaint (line !! 1%nat) in
  match from_option Some v_text_a (line !! 0%nat), from_option Some v_label (line !! 1%nat) with
  | Some t, Some l =>
      ((out_a ++ out_l) ++
         (exp_loop set_type todo (Some t) (Some l) (examples ++ [example_of i t l])).1,
       (exp_loop set_type todo (Some t) (Some l) (examples ++ [example_of i t l])).2)
  | None, _ => (out_a ++ out_l, inl (UnboundLocalError "text_a"))
  | Some _, None => (out_a ++ out_l, inl (UnboundLocalError "label"))
  end.
Proof.
  intros Hi. cbn [exp_loop]. destruct (Nat.eqb_spec i 0); [done|].
  rewrite !py_index_nonneg by lia.
  change (Z.to_nat 0) with 0%nat. change (Z.to_nat 1) with 1%nat.
  destruct (line !! 0%nat) as [t|], (line !! 1%nat) as [l|],
    v_text_a as [t0|], v_label as [l0|]; simpl; try done;
    match goal with
    | |- context [exp_loop ?a ?b ?c ?d ?e] => by destruct (exp_loop a b c d e) as [out r]
    end.
Qed.

(** When both variables are bound the loop cannot fail any more, and its
    examples follow the lines one by one, each taking from the previous one
    what its line lacks. *)
Lemma exp_loop_bound rows : ∀ start t0 l0 examples,
  start ≠ 0%nat →
  ∃ out new,
    exp_loop set_type (enumerate_from start rows) (Some t0) (Some l0) examples
      = (out, inr (examples ++ new)) ∧
    length new = length rows ∧
    (∀ k e, new !! k = Some e →
       guid e = guid_of set_type (pretty (start + k)%nat) ∧ text_b e = None) ∧
    (∀ r e, rows !! 0%nat = Some r → new !! 0%nat = Some e →
       text_a e = default t0 (r !! 0%nat) ∧ label e = Some (default l0 (r !! 1%nat))) ∧
    (∀ k r e e', rows !! S k = Some r → new !! k = Some e → new !! S k = Some e' →
       text_a e' = default (text_a e) (r !! 0%nat) ∧
       label e' = from_option Some (label e) (r !! 1%nat)).
Proof.
  induction rows as [|r rows IH]; intros start t0 l0 examples Hs.
  { exists [], []. by rewrite app_nil_r. }
  cbn [enumerate_from]. rewrite exp_loop_cons by done. cbv zeta.
  set (t := default t0 (r !! 0%nat)). set (l := default l0 (r !! 1%nat)).
  assert (from_option Some (Some t0) (r !! 0%nat) = Some t) as ->
    by (subst t; by destruct (r !! 0%nat)).
  assert (from_option Some (Some l0) (r !! 1%nat) = Some l) as ->
    by (subst l; by destruct (r !! 1%nat)).
  destruct (IH (S start) t l (examples ++ [example_of start t l]))
    as (out & new & -> & Hlen & Hg & H0 & Hk); [done|].
  eexists _, (example_of start t l :: new). simpl.
  split; [apply (f_equal2 pair); [reflexivity|by rewrite <- app_assoc]|].
  split; [by rewrite Hlen|].
  split; [|split].
  - intros [|k] e He; simpl in He.
    + injection He as <-. by rewrite Nat.add_0_r.
    + replace (start + S k)%nat with (S start + k)%nat by lia. by apply Hg.
  - by intros r' e [= <-] [= <-].
  - intros [|k] r' e e' Hr He He'; simpl in *.
    + injection He as <-. destruct (H0 _ _ Hr He') as [-> ->]. split; [done|].
      subst l. by destruct (r' !! 1%nat).
    + by eapply Hk.
Qed.

End ExpProcessor.

Lemma exp_loop_header (set_type : string) (header : list string)
    (todo : list (nat * list string)) v_text_a v_label examples :
  exp_loop set_type ((0%nat, header) :: todo) v_text_a v_label examples
  = exp_loop set_type todo v_text_a v_label examples.
Proof. done. Qed.

Lemma exp_create_examples_inr (lines : list (list string)) (set_type : string)
    (out : list printed) (es : list InputExample) :
  exp_create_examples lines set_type = (out, inr es) →
  length es = (length lines - 1)%nat ∧
  (∀ k e, es !! k = Some e →
     guid e = guid_of set_type (pretty (S k)) ∧ text_b e = None) ∧
  (∀ k r e e', lines !! S (S k) = Some r → es !! k = Some e → es !! S k = Some e' →
     text_a e' = default (text_a e) (r !! 0%nat) ∧
     label e' = from_option Some (label e) (r !! 1%nat)).
Proof.
  unfold exp_create_examples, enumerate.
  destruct lines as [|header [|first rest]]; cbn [enumerate_from].
  - intros [= _ <-]. by repeat split.
  - intros [= _ <-]. by repeat split.
  - rewrite exp_loop_header, exp_loop_cons by done. cbv zeta.
    destruct (first !! 0%nat) as [t|]; [|done].
    destruct (first !! 1%nat) as [l|]; [|done]. simpl from_option. cbv beta iota.
    destruct (exp_loop_bound set_type rest 2 t l
                ([] ++ [{| guid := guid_of set_type (pretty 1%nat); text_a := t;
                           text_b := None; label := Some l |}]))
      as (out' & new & -> & Hlen & Hg & H0 & Hk); [done|].
    simpl. intros [= _ <-]. split; [simpl; lia|]. split.
    + intros [|k] e He; simpl in He; [by injection He as <-|].
      by apply (Hg k e).
    + intros [|k] r e e' Hr He He'; simpl in *.
      * injection He as <-. destruct (H0 _ _ Hr He') as [-> ->].
        split; [done|]. by destruct (r !! 1%nat).
      * by eapply Hk.
Qed.

Lemma exp_loop_well_formed (set_type : string) (rows : list (list string)) :
  ∀ start v_text_a v_label examples,
  start ≠ 0%nat →
  Forall (λ r, 2 ≤ length r)%nat rows →
  exp_loop set_type (enumerate_from start rows) v_text_a v_label examples =
  ([], inr (examples ++
            imap (λ k r, {| guid := guid_of set_type (pretty (start + k)%nat);
                            text_a := default "" (r !! 0%nat); text_b := None;
                            label := Some (default "" (r !! 1%nat)) |}) rows)).
Proof.
  induction rows as [|r rows IH]; intros start v_text_a v_label examples Hs Hall.
  { simpl. by rewrite app_nil_r. }
  apply Forall_cons in Hall as [Hr Hall].
  cbn [enumerate_from]. rewrite exp_loop_cons by done. cbv zeta.
  destruct (lookup_lt_is_Some_2 r 0) as [t Ht]; [lia|].
  destruct (lookup_lt_is_Some_2 r 1) as [l Hl]; [lia|].
  rewrite Ht, Hl. simpl from_option. cbv beta iota. rewrite IH by done. simpl.
  rewrite Nat.add_0_r, <- app_assoc, Ht, Hl. simpl. do 4 f_equal.
  apply imap_ext. intros k r' _. simpl. by rewrite Nat.add_succ_r.
Qed.

Lemma exp_processors_loop (P : DataProcessor) :
  P ∈ exp_processors → _create_examples P = exp_create_examples.
Proof.
  unfold exp_processors. rewrite !elem_of_cons, elem_of_nil.
  intros H. repeat destruct H as [->|H]; done.
Qed.

(** X11.  The eleven processors of the experiment data sets turn well-formed
    lines (two columns or more after the header line) into one example per
    line, in order, numbered from 1, with the text of column 0 and the label
    of column 1, and print nothing. *)
Theorem exp_processors_well_formed (P : DataProcessor) (lines : list (list string))
    (set_type : string) :
  P ∈ exp_processors →
  Forall (λ r, 2 ≤ length r)%nat (drop 1 lines) →
  _create_examples P lines set_type =
  ([], inr (imap (λ k r, {| guid := guid_of set_type (pretty (S k));
                            text_a := default "" (r !! 0%nat); text_b := None;
                            label := Some (default "" (r !! 1%nat)) |})
              (drop 1 lines))).
Proof.
  intros HP Hall. rewrite (exp_processors_loop P HP).
  unfold exp_create_examples, enumerate.
  destruct lines as [|header rows]; [done|].
  cbn [enumerate_from]. simpl in Hall.
  by rewrite exp_loop_header, exp_loop_well_formed.
Qed.

Lemma exp_processors_well_formed_witness :
  _create_examples TrecProcessor [["text"; "label"]; ["who is it"; "3"]; ["when"; "5"; "x"]] "dev" =
  ([], inr (imap (λ k r, {| guid := guid_of "dev" (pretty (S k));
                            text_a := default "" (r !! 0%nat); text_b := None;
                            label := Some (default "" (r !! 1%nat)) |})
              (drop 1 [["text"; "label"]; ["who is it"; "3"]; ["when"; "5"; "x"]]))).
Proof.
  apply (exp_processors_well_formed TrecProcessor
           [["text"; "label"]; ["who is it"; "3"]; ["when"; "5"; "x"]] "dev").
  - unfold exp_processors. do 4 apply list_elem_of_further. apply list_elem_of_here.
  - repeat constructor.
Defined.

(** X12.  Whether these processors return is decided by the first line after
    the header: without columns it leaves [text_a] unbound, with one column
    it leaves [label] unbound, and the call ends in [UnboundLocalError]
    after printing the line; with two columns or more the call returns one
    example per line whatever the later lines hold. *)
Theorem exp_processors_first_line (P : DataProcessor) (header first : list string)
    (rest : list (list string)) (set_type : string) :
  P ∈ exp_processors →
  (length first = 0%nat →
     _create_examples P (header :: first :: rest) set_type =
     ([PrintInt 1; PrintLine first; PrintInt 1; PrintLine first],
      inl (UnboundLocalError "text_a"))) ∧
  (length first = 1%nat →
     _create_examples P (header :: first :: rest) set_type =
     ([PrintInt 1; PrintLine first], inl (UnboundLocalError "label"))) ∧
  ((2 ≤ length first)%nat →
     ∃ out es, _create_examples P (header :: first :: rest) set_type = (out, inr es) ∧
               length es = S (length rest)).
Proof.
  intros HP. rewrite (exp_processors_loop P HP).
  unfold exp_create_examples, enumerate. cbn [enumerate_from].
  rewrite exp_loop_header, exp_loop_cons by done. cbv zeta. split; [|split].
  - intros H. apply nil_length_inv in H as ->. done.
  - intros H. destruct first as [|t [|??]]; try done.
  - intros H.
    destruct (lookup_lt_is_Some_2 first 0) as [t Ht]; [lia|].
    destruct (lookup_lt_is_Some_2 first 1) as [l Hl]; [lia|].
    rewrite Ht, Hl. simpl from_option. cbv beta iota.
    destruct (exp_loop_bound set_type rest 2 t l
                ([] ++ [{| guid := guid_of set_type (pretty 1%nat); text_a := t;
                           text_b := None; label := Some l |}]))
      as (out' & new & -> & Hlen & _); [done|].
    eexists _, _. split; [reflexivity|]. simpl. by rewrite Hlen.
Qed.

Lemma exp_processors_first_line_witness :
  (length ["only text"] = 0%nat →
     _create_examples MrProcessor [["text"; "label"]; ["only text"]; ["fine"; "1"]] "train" =
     ([PrintInt 1; PrintLine ["only text"]; PrintInt 1; PrintLine ["only text"]],
      inl (UnboundLocalError "text_a"))) ∧
  (length ["only text"] = 1%nat →
     _create_examples MrProcessor [["text"; "label"]; ["only text"]; ["fine"; "1"]] "train" =
     ([PrintInt 1; PrintLine ["only text"]], inl (UnboundLocalError "label"))) ∧
  ((2 ≤ length ["only text"])%nat →
     ∃ out es,
       _create_examples MrProcessor [["text"; "label"]; ["only text"]; ["fine"; "1"]] "train"
       = (out, inr es) ∧ length es = S (length [["fine"; "1"]])).
Proof.
  apply (exp_processors_first_line MrProcessor ["text"; "label"] ["only text"]
           [["fine"; "1"]] "train").
  unfold exp_processors. do 8 apply list_elem_of_further. apply list_elem_of_here.
Defined.

(** X13.  When one of these processors returns, it returns one example for
    each line after the first, [lines[1:]], hence none for an empty [lines]
    and none for a header alone; the guids, the line numbers after the split
    name, are pairwise distinct. *)
Theorem exp_processors_guids (P : DataProcessor) (lines : list (list string))
    (set_type : string) (out : list printed) (es : list InputExample) :
  P ∈ exp_processors →
  _create_examples P lines set_type = (out, inr es) →
  length es = length (drop 1 lines) ∧
  (lines = [] → es = []) ∧
  (∀ k e, es !! k = Some e → guid e = guid_of set_type (pretty (S k))) ∧
  NoDup (guid <$> es).
Proof.
  intros HP. rewrite (exp_processors_loop P HP). intros H.
  apply exp_create_examples_inr in H as (Hlen & Hg & _).
  split; [by rewrite length_drop|].
  split; [intros ->; by apply nil_length_inv|].
  split; [intros k e He; by apply (Hg k e)|].
  apply NoDup_alt. intros i j g Hi Hj.
  rewrite list_lookup_fmap in Hi, Hj.
  destruct (es !! i) as [ei|] eqn:Ei; [|done].
  destruct (es !! j) as [ej|] eqn:Ej; [|done].
  simpl in Hi, Hj. injection Hi as <-. injection Hj as Hj.
  destruct (Hg _ _ Ei) as [Hgi _]. destruct (Hg _ _ Ej) as [Hgj _].
  rewrite Hgi, Hgj in Hj. apply guid_of_inj in Hj.
  apply (inj pretty) in Hj. lia.
Qed.


Lemma scenario_lines_with_gaps :
  _create_examples TrecProcessor lines_with_gaps "train"
  = (printed_with_gaps, inr examples_with_gaps).
Proof. reflexivity. Qed.

Lemma trec_is_exp_processor : TrecProcessor ∈ exp_processors.
Proof. unfold exp_processors. do 4 apply list_elem_of_further. apply list_elem_of_here. Qed.

Lemma exp_processors_guids_witness :
  length examples_with_gaps = length (drop 1 lines_with_gaps) ∧
  (lines_with_gaps = [] → examples_with_gaps = []) ∧
  (∀ k e, examples_with_gaps !! k = Some e → guid e = guid_of "train" (pretty (S k))) ∧
  NoDup (guid <$> examples_with_gaps).
Proof.
  apply (exp_processors_guids TrecProcessor lines_with_gaps "train" printed_with_gaps
           examples_with_gaps trec_is_exp_processor scenario_lines_with_gaps).
Defined.


(** ** The processors that index without [try] *)

Ltac norm_index :=
  repeat match goal with
         | |- context [Z.to_nat ?k] =>
             let n := eval vm_compute in (Z.to_nat k) in change (Z.to_nat k) with n
         end.

Ltac open_row :=
  rewrite ?py_index_last, ?py_index_nonneg by lia; norm_index.

Section RowsLoop.
Variable row : nat → list string → exn + option InputExample.

(** A loop whose passes either go on or raise [e], and one of which
    raises [e], raises [e]. *)
Lemma rows_loop_raises e todo examples :
  Forall (λ p, (∃ o, row p.1 p.2 = inr o) ∨ row p.1 p.2 = inl e) todo →
  Exists (λ p, row p.1 p.2 = inl e) todo →
  rows_loop row todo examples = inl e.
Proof.
  revert examples. induction todo as [|[i line] todo IH]; intros examples Hall Hex.
  { by apply Exists_nil in Hex. }
  apply Forall_cons in Hall as [Hhd Hall]. simpl in Hhd. cbn [rows_loop].
  destruct Hhd as [[o Ho]| ->]; [|done].
  apply Exists_cons in Hex as [Hex|Hex]; [simpl in Hex; congruence|].
  rewrite Ho. destruct o; by apply IH.
Qed.

(** A loop none of whose passes raises returns the examples of the
    passes, in order. *)
Lemma rows_loop_returns (f : nat * list string → option InputExample) todo examples :
  Forall (λ p, row p.1 p.2 = inr (f p)) todo →
  rows_loop row todo examples = inr (examples ++ omap f todo).
Proof.
  revert examples. induction todo as [|[i line] todo IH]; intros examples Hall.
  { simpl. by rewrite app_nil_r. }
  apply Forall_cons in Hall as [Hhd Hall]. simpl in Hhd. cbn [rows_loop omap list_omap].
  rewrite Hhd. destruct (f (i, line)) as [ex|]; rewrite IH by done; [|done].
  by rewrite <- app_assoc.
Qed.

End RowsLoop.

Lemma Forall_enumerate_from {A} (P : nat → A → Prop) (l : list A) (start : nat) :
  (∀ k x, l !! k = Some x → P (start + k)%nat x) →
  Forall (λ p, P p.1 p.2) (enumerate_from start l).
Proof.
  intros H. apply Forall_forall. intros [i x] Hin.
  apply list_elem_of_lookup in Hin as [k Hk]. rewrite enumerate_from_lookup in Hk.
  destruct (l !! k) as [y|] eqn:E; [|done]. injection Hk as <- <-. by apply H.
Qed.

Lemma Exists_enumerate_from {A} (P : nat → A → Prop) (Q : A → Prop) (l : list A)
    (start : nat) :
  (∀ k x, Q x → P (start + k)%nat x) →
  Exists Q l → Exists (λ p, P p.1 p.2) (enumerate_from start l).
Proof.
  intros H Hex. apply Exists_exists in Hex as (x & Hin & Hx).
  apply list_elem_of_lookup in Hin as [k Hk].
  apply Exists_exists. exists ((start + k)%nat, x). split; [|by apply H].
  apply list_elem_of_lookup. exists k. by rewrite enumerate_from_lookup, Hk.
Qed.

(** What a loop body that skips line 0 and needs [columns] columns does to
    the whole input. *)
Lemma create_by_rows_columns
    (row : string → nat → list string → exn + option InputExample) (columns : nat) :
  (∀ set_type line, row set_type 0%nat line = inr None) →
  (∀ set_type i line, i ≠ 0%nat → (columns ≤ length line)%nat →
     ∃ example, row set_type i line = inr (Some example)) →
  (∀ set_type i line, i ≠ 0%nat → (length line < columns)%nat →
     row set_type i line = inl IndexError) →
  ∀ lines set_type,
    (Forall (λ r, columns ≤ length r)%nat (drop 1 lines) →
       ∃ es, create_by_rows row lines set_type = ([], inr es) ∧
             length es = (length lines - 1)%nat) ∧
    (Exists (λ r, length r < columns)%nat (drop 1 lines) →
       create_by_rows row lines set_type = ([], inl (Py IndexError))).
Proof.
  intros H0 Hok Herr lines set_type. unfold create_by_rows, enumerate.
  destruct lines as [|header rows]; simpl drop.
  { split; [intros _; by exists []|]. intros H. by apply Exists_nil in H. }
  cbn [enumerate_from rows_loop]. rewrite H0. split.
  - intros Hall.
    assert (∃ f, Forall (λ p, row set_type p.1 p.2 = inr (f p)) (enumerate_from 1 rows) ∧
                 ∀ p, p ∈ enumerate_from 1 rows → is_Some (f p)) as (f & Hf & Hsome).
    { exists (λ p, match row set_type p.1 p.2 with inr o => o | inl _ => None end).
      assert (∀ p, p ∈ enumerate_from 1 rows →
                   ∃ ex, row set_type p.1 p.2 = inr (Some ex)) as Hrow.
      { intros [i r] Hin. simpl.
        apply list_elem_of_lookup in Hin as [k Hk]. rewrite enumerate_from_lookup in Hk.
        destruct (rows !! k) as [y|] eqn:E; [|done]. injection Hk as <- <-.
        apply Hok; [lia|]. rewrite Forall_forall in Hall. apply Hall.
        by eapply list_elem_of_lookup_2. }
      split.
      - apply Forall_forall. intros p Hp. by destruct (Hrow p Hp) as [ex ->].
      - intros p Hp. destruct (Hrow p Hp) as [ex ->]. by eexists. }
    rewrite (rows_loop_returns _ f) by done. eexists. split; [done|].
    simpl. rewrite Nat.sub_0_r, <- (enumerate_from_length rows 1).
    clear Hf. induction (enumerate_from 1 rows) as [|p todo IH]; [done|].
    cbn [omap list_omap].
    destruct (Hsome p) as [ex ->]; [apply list_elem_of_here|].
    simpl. f_equal. apply IH. intros q Hq. apply Hsome. by apply list_elem_of_further.
  - intros Hex. rewrite (rows_loop_raises _ IndexError); [done| |].
    + apply (Forall_enumerate_from
               (λ i r, (∃ o, row set_type i r = inr o) ∨ row set_type i r = inl IndexError)).
      intros k r _. destruct (le_lt_dec columns (length r)) as [Hle|Hlt].
      * left. destruct (Hok set_type (1 + k)%nat r) as [ex ->]; [lia|done|by eexists].
      * right. apply Herr; [lia|done].
    + apply (Exists_enumerate_from (λ i r, row set_type i r = inl IndexError)
               (λ r, length r < columns)%nat); [|done].
      intros k r Hr. apply Herr; [lia|done].
Qed.

Ltac lookups_hold :=
  repeat match goal with
         | |- context [?l !! ?k] =>
             let E := fresh "E" in
             destruct (l !! k) eqn:E;
             [|apply lookup_ge_None in E; simpl in *; lia]
         | |- context [last ?l] =>
             let E := fresh "E" in
             destruct (last l) eqn:E;
             [|apply last_None in E; subst; simpl in *; lia]
         end.

Ltac lookups_fail :=
  repeat match goal with
         | |- context [?l !! ?k] =>
             let E := fresh "E" in
             destruct (l !! k) eqn:E; [apply lookup_lt_Some in E|]; simpl; try done
         | |- context [last ?l] => destruct (last l); simpl; try done
         end;
  try lia.

Lemma mrpc_row_columns set_type i line :
  i ≠ 0%nat →
  ((5 ≤ length line)%nat → ∃ example, mrpc_row set_type i line = inr (Some example)) ∧
  ((length line < 5)%nat → mrpc_row set_type i line = inl IndexError).
Proof.
  intros Hi. unfold mrpc_row. destruct (Nat.eqb_spec i 0); [done|]. open_row.
  split; intros H; [lookups_hold; by eexists|lookups_fail].
Qed.

Lemma mnli_row_columns set_type i line :
  i ≠ 0%nat →
  ((10 ≤ length line)%nat → ∃ example, mnli_row set_type i line = inr (Some example)) ∧
  ((length line < 10)%nat → mnli_row set_type i line = inl IndexError).
Proof.
  intros Hi. unfold mnli_row. destruct (Nat.eqb_spec i 0); [done|]. open_row.
  split; intros H; [lookups_hold; by eexists|lookups_fail].
Qed.

Lemma sst2_row_columns set_type i line :
  i ≠ 0%nat →
  ((2 ≤ length line)%nat → ∃ example, sst2_row set_type i line = inr (Some example)) ∧
  ((length line < 2)%nat → sst2_row set_type i line = inl IndexError).
Proof.
  intros Hi. unfold sst2_row. destruct (Nat.eqb_spec i 0); [done|]. open_row.
  split; intros H; [lookups_hold; by eexists|lookups_fail].
Qed.

Lemma stsb_row_columns set_type i line :
  i ≠ 0%nat →
  ((9 ≤ length line)%nat → ∃ example, stsb_row set_type i line = inr (Some example)) ∧
  ((length line < 9)%nat → stsb_row set_type i line = inl IndexError).
Proof.
  intros Hi. unfold stsb_row. destruct (Nat.eqb_spec i 0); [done|]. open_row.
  split; intros H; [lookups_hold; by eexists|lookups_fail].
Qed.

Lemma qnli_row_columns set_type i line :
  i ≠ 0%nat →
  ((3 ≤ length line)%nat → ∃ example, qnli_row set_type i line = inr (Some example)) ∧
  ((length line < 3)%nat → qnli_row set_type i line = inl IndexError).
Proof.
  intros Hi. unfold qnli_row. destruct (Nat.eqb_spec i 0); [done|]. open_row.
  split; intros H; [lookups_hold; by eexists|lookups_fail].
Qed.

(** X15.  The processors that index their lines without [try] return exactly
    when every line after the header has the columns their indices reach
    (MRPC 5, MNLI 10, SST-2 2, STS-B 9, QNLI, RTE and WNLI 3), then with one
    example per such line; one shorter line makes the whole call raise
    [IndexError]. *)
Theorem indexing_processors_columns (P : DataProcessor) (columns : nat)
    (lines : list (list string)) (set_type : string) :
  (P, columns) ∈ indexing_processors →
  (Forall (λ r, columns ≤ length r)%nat (drop 1 lines) →
     ∃ es, _create_examples P lines set_type = ([], inr es) ∧
           length es = (length lines - 1)%nat) ∧
  (Exists (λ r, length r < columns)%nat (drop 1 lines) →
     _create_examples P lines set_type = ([], inl (Py IndexError))).
Proof.
  unfold indexing_processors. rewrite !elem_of_cons, elem_of_nil.
  intros H. repeat destruct H as [[= -> ->]|H]; try done; simpl _create_examples.
  - apply create_by_rows_columns; [done|intros; by apply mrpc_row_columns..].
  - apply create_by_rows_columns; [done|intros; by apply mnli_row_columns..].
  - apply create_by_rows_columns; [done|intros; by apply mnli_row_columns..].
  - apply create_by_rows_columns; [done|intros; by apply sst2_row_columns..].
  - apply create_by_rows_columns; [done|intros; by apply stsb_row_columns..].
  - apply create_by_rows_columns; [done|intros; by apply qnli_row_columns..].
  - apply create_by_rows_columns; [done|intros; by apply qnli_row_columns..].
  - apply create_by_rows_columns; [done|intros; by apply qnli_row_columns..].
Qed.

Lemma indexing_processors_columns_witness :
  (Forall (λ r, 3 ≤ length r)%nat (drop 1 [["index"; "q"; "s"; "label"]; ["7"; "who"; "he"]]) →
     ∃ es, _create_examples QnliProcessor
             [["index"; "q"; "s"; "label"]; ["7"; "who"; "he"]] "dev_matched" = ([], inr es) ∧
           length es = (length [["index"; "q"; "s"; "label"]; ["7"; "who"; "he"]] - 1)%nat) ∧
  (Exists (λ r, length r < 3)%nat (drop 1 [["index"; "q"; "s"; "label"]; ["7"; "who"; "he"]]) →
     _create_examples QnliProcessor
       [["index"; "q"; "s"; "label"]; ["7"; "who"; "he"]] "dev_matched"
     = ([], inl (Py IndexError))).
Proof.
  apply (indexing_processors_columns QnliProcessor 3
           [["index"; "q"; "s"; "label"]; ["7"; "who"; "he"]] "dev_matched").
  unfold indexing_processors. do 5 apply list_elem_of_further. apply list_elem_of_here.
Defined.

Lemma omap_Some_enumerate_from {A B} (g : nat → A → B) (l : list A) (start : nat) :
  omap (λ p, Some (g p.1 p.2)) (enumerate_from start l)
  = imap (λ k x, g (start + k)%nat x) l.
Proof.
  revert start. induction l as [|x l IH]; intros start; [done|].
  cbn [enumerate_from omap list_omap imap]. simpl. rewrite Nat.add_0_r, IH. f_equal.
  apply imap_ext. intros k y _. simpl. by rewrite Nat.add_succ_r.
Qed.

Lemma omap_rows_enumerate_from {A B} (g : A → option B) (l : list A) (start : nat) :
  start ≠ 0%nat →
  omap (λ p : nat * A, if decide (p.1 = 0%nat) then None else g p.2) (enumerate_from start l)
  = omap g l.
Proof.
  revert start. induction l as [|x l IH]; intros start Hs; [done|].
  cbn [enumerate_from omap list_omap]. simpl. rewrite decide_False by done.
  by rewrite IH.
Qed.

Lemma omap_filter {A B} (P : A → Prop) `{∀ x, Decision (P x)} (g : A → B) (l : list A) :
  omap (λ x, if decide (P x) then Some (g x) else None) l = g <$> filter P l.
Proof.
  induction l as [|x l IH]; [done|]. cbn [omap list_omap].
  destruct (decide (P x)).
  - rewrite filter_cons_True by done. simpl. by rewrite IH.
  - by rewrite filter_cons_False.
Qed.

(** X16.  [QqpProcessor] drops, without a word, every line after the header
    that has fewer than six columns, and makes an example of each of the
    others; but a line without any column, whose guid cannot be read, makes
    the whole call raise [IndexError]. *)
Theorem qqp_drops_short_lines (lines : list (list string)) (set_type : string) :
  (Forall (λ r, r ≠ []) (drop 1 lines) →
     _create_examples QqpProcessor lines set_type =
     ([], inr ((λ r, {| guid := guid_of set_type (default "" (r !! 0%nat));
                        text_a := default "" (r !! 3%nat);
                        text_b := Some (default "" (r !! 4%nat));
                        label := Some (default "" (r !! 5%nat)) |})
               <$> filter (λ r, 6 ≤ length r)%nat (drop 1 lines)))) ∧
  (Exists (λ r, r = []) (drop 1 lines) →
     _create_examples QqpProcessor lines set_type = ([], inl (Py IndexError))).
Proof.
  assert (∀ i line, i ≠ 0%nat → line ≠ [] →
            qqp_row set_type i line =
            inr (if decide (6 ≤ length line)%nat
                 then Some {| guid := guid_of set_type (default "" (line !! 0%nat));
                              text_a := default "" (line !! 3%nat);
                              text_b := Some (default "" (line !! 4%nat));
                              label := Some (default "" (line !! 5%nat)) |}
                 else None)) as Hrow.
  { intros i line Hi Hne. unfold qqp_row. destruct (Nat.eqb_spec i 0); [done|]. open_row.
    destruct line as [|c0 line]; [done|]. simpl.
    destruct (decide (6 ≤ S (length line))%nat) as [Hle|Hlt].
    - destruct line as [|c1 [|c2 [|c3 [|c4 [|c5 line]]]]]; simpl in Hle; try lia. done.
    - destruct line as [|c1 [|c2 [|c3 [|c4 [|c5 line]]]]]; simpl in Hlt; try lia; done. }
  assert (∀ i, i ≠ 0%nat → qqp_row set_type i [] = inl IndexError) as Hempty.
  { intros i Hi. unfold qqp_row. by destruct (Nat.eqb_spec i 0). }
  simpl _create_examples. unfold create_by_rows, enumerate.
  destruct lines as [|header rows]; simpl drop.
  { split; [done|]. intros H. by apply Exists_nil in H. }
  cbn [enumerate_from rows_loop]. change (qqp_row set_type 0 header) with (@inr exn _ (@None InputExample)).
  cbv beta iota. split.
  - intros Hall. change (drop 0 rows) with rows in *.
    pose (ex := λ r : list string,
            {| guid := guid_of set_type (default "" (r !! 0%nat));
               text_a := default "" (r !! 3%nat);
               text_b := Some (default "" (r !! 4%nat));
               label := Some (default "" (r !! 5%nat)) |}).
    pose (g := λ r : list string, if decide (6 ≤ length r)%nat then Some (ex r) else None).
    pose (F := λ p : nat * list string, if decide (p.1 = 0%nat) then None else g p.2).
    rewrite (rows_loop_returns _ F).
    + unfold quiet. do 2 f_equal. simpl app.
      pose proof (omap_rows_enumerate_from g rows 1) as Hg.
      pose proof (omap_filter (λ r : list string, 6 ≤ length r)%nat ex rows) as Hf.
      transitivity (omap g rows); [by apply Hg|exact Hf].
    + apply (Forall_enumerate_from (λ i r, qqp_row set_type i r = inr (F (i, r)))).
      intros k r Hr. unfold F. simpl. rewrite ?decide_False by lia. apply Hrow; [lia|].
      rewrite Forall_forall in Hall. apply Hall. by eapply list_elem_of_lookup_2.
  - intros Hex. rewrite (rows_loop_raises _ IndexError); [done| |].
    + apply (Forall_enumerate_from
               (λ i r, (∃ o, qqp_row set_type i r = inr o)
                       ∨ qqp_row set_type i r = inl IndexError)).
      intros k r _. destruct r as [|c r]; [right; by apply Hempty|].
      left. rewrite Hrow by done. by eexists.
    + apply (Exists_enumerate_from (λ i r, qqp_row set_type i r = inl IndexError)
               (λ r, r = [])); [|done].
      intros k r ->. by apply Hempty.
Qed.

Lemma qqp_drops_short_lines_witness :
  _create_examples QqpProcessor
    [["id"]; ["1"; "a"; "b"; "q1"; "q2"; "0"]; ["2"; "a"]; ["3"; "a"; "b"; "r1"; "r2"; "1"; "z"]]
    "dev" =
  ([], inr ((λ r, {| guid := guid_of "dev" (default "" (r !! 0%nat));
                     text_a := default "" (r !! 3%nat);
                     text_b := Some (default "" (r !! 4%nat));
                     label := Some (default "" (r !! 5%nat)) |})
            <$> filter (λ r, 6 ≤ length r)%nat
                  (drop 1 [["id"]; ["1"; "a"; "b"; "q1"; "q2"; "0"]; ["2"; "a"];
                           ["3"; "a"; "b"; "r1"; "r2"; "1"; "z"]]))).
Proof.
  apply (proj1 (qqp_drops_short_lines
                  [["id"]; ["1"; "a"; "b"; "q1"; "q2"; "0"]; ["2"; "a"];
                   ["3"; "a"; "b"; "r1"; "r2"; "1"; "z"]] "dev")).
  repeat constructor; discriminate.
Defined.

(** X17.  [ColaProcessor] does not skip the first line: every line, the header
    included, becomes an example, numbered from 0, with the text of column
    3 and the label of column 1; a line with fewer than four columns makes
    the call raise [IndexError]. *)
Theorem cola_keeps_first_line (lines : list (list string)) (set_type : string) :
  (Forall (λ r, 4 ≤ length r)%nat lines →
     _create_examples ColaProcessor lines set_type =
     ([], inr (imap (λ i r, {| guid := guid_of set_type (pretty i);
                               text_a := default "" (r !! 3%nat); text_b := None;
                               label := Some (default "" (r !! 1%nat)) |}) lines))) ∧
  (Exists (λ r, length r < 4)%nat lines →
     _create_examples ColaProcessor lines set_type = ([], inl (Py IndexError))).
Proof.
  assert (∀ i line,
            ((4 ≤ length line)%nat →
               cola_row set_type i line =
               inr (Some {| guid := guid_of set_type (pretty i);
                            text_a := default "" (line !! 3%nat); text_b := None;
                            label := Some (default "" (line !! 1%nat)) |})) ∧
            ((length line < 4)%nat → cola_row set_type i line = inl IndexError)) as Hrow.
  { intros i line. unfold cola_row. open_row.
    split; intros H; [by lookups_hold|lookups_fail]. }
  simpl _create_examples. unfold create_by_rows, enumerate. split.
  - intros Hall.
    pose (ex := λ (i : nat) (r : list string),
            {| guid := guid_of set_type (pretty i);
               text_a := default "" (r !! 3%nat); text_b := None;
               label := Some (default "" (r !! 1%nat)) |}).
    pose (F := λ p : nat * list string, Some (ex p.1 p.2)).
    rewrite (rows_loop_returns _ F).
    + unfold quiet. do 2 f_equal. simpl app.
      exact (omap_Some_enumerate_from ex lines 0).
    + apply (Forall_enumerate_from (λ i r, cola_row set_type i r = inr (F (i, r)))).
      intros k r Hr. simpl. apply Hrow.
      rewrite Forall_forall in Hall. apply Hall. by eapply list_elem_of_lookup_2.
  - intros Hex. rewrite (rows_loop_raises _ IndexError); [done| |].
    + apply (Forall_enumerate_from
               (λ i r, (∃ o, cola_row set_type i r = inr o)
                       ∨ cola_row set_type i r = inl IndexError)).
      intros k r _. destruct (le_lt_dec 4 (length r)) as [Hle|Hlt].
      * left. rewrite (proj1 (Hrow _ _)) by done. by eexists.
      * right. by apply Hrow.
    + apply (Exists_enumerate_from (λ i r, cola_row set_type i r = inl IndexError)
               (λ r, length r < 4)%nat); [|done].
      intros k r Hr. by apply Hrow.
Qed.

Lemma cola_keeps_first_line_witness :
  _create_examples ColaProcessor [["gj04"; "1"; ""; "They sang."]; ["gj04"; "0"; "*"; "Sang they."]]
    "dev" =
  ([], inr (imap (λ i r, {| guid := guid_of "dev" (pretty i);
                            text_a := default "" (r !! 3%nat); text_b := None;
                            label := Some (default "" (r !! 1%nat)) |})
              [["gj04"; "1"; ""; "They sang."]; ["gj04"; "0"; "*"; "Sang they."]])).
Proof.
  apply (proj1 (cola_keeps_first_line
                  [["gj04"; "1"; ""; "They sang."]; ["gj04"; "0"; "*"; "Sang they."]] "dev")).
  repeat constructor.
Defined.

(** X18.  [QnliProcessor], [RteProcessor] and [WnliProcessor] take the label
    from the last column, whatever the number of columns: on a line with
    exactly three columns (a test file, without labels) the label is the
    second text. *)
Theorem qnli_label_is_last_column (P : DataProcessor) (lines : list (list string))
    (set_type : string) :
  P ∈ [QnliProcessor; RteProcessor; WnliProcessor] →
  Forall (λ r, 3 ≤ length r)%nat (drop 1 lines) →
  _create_examples P lines set_type =
  ([], inr ((λ r, {| guid := guid_of set_type (default "" (r !! 0%nat));
                     text_a := default "" (r !! 1%nat);
                     text_b := r !! 2%nat;
                     label := last r |}) <$> drop 1 lines)).
Proof.
  intros HP Hall.
  assert (_create_examples P = create_by_rows qnli_row) as ->.
  { rewrite !elem_of_cons, elem_of_nil in HP. by destruct HP as [->|[->|[->|[]]]]. }
  unfold create_by_rows, enumerate.
  destruct lines as [|header rows]; [done|]. simpl drop in *.
  cbn [enumerate_from rows_loop].
  change (qnli_row set_type 0 header) with (@inr exn _ (@None InputExample)).
  cbv beta iota.
  pose (ex := λ r : list string,
          {| guid := guid_of set_type (default "" (r !! 0%nat));
             text_a := default "" (r !! 1%nat);
             text_b := r !! 2%nat; label := last r |}).
  pose (F := λ p : nat * list string, if decide (p.1 = 0%nat) then None else Some (ex p.2)).
  rewrite (rows_loop_returns _ F).
  - unfold quiet. change (drop 0 rows) with rows. do 2 f_equal. simpl app.
    pose proof (omap_rows_enumerate_from (λ r, Some (ex r)) rows 1) as Hg.
    transitivity (omap (λ r, Some (ex r)) rows); [by apply Hg|].
    clear. induction rows as [|r rows IH]; [done|].
    cbn [omap list_omap]. simpl. by rewrite IH.
  - apply (Forall_enumerate_from (λ i r, qnli_row set_type i r = inr (F (i, r)))).
    intros k r Hr. unfold F. simpl. rewrite ?decide_False by lia.
    rewrite Forall_forall in Hall.
    assert (3 ≤ length r)%nat as Hlen by (apply Hall; by eapply list_elem_of_lookup_2).
    unfold qnli_row, ex. cbn [Nat.eqb]. open_row. by lookups_hold.
Qed.

Lemma qnli_label_is_last_column_witness :
  _create_examples RteProcessor [["index"; "s1"; "s2"]; ["4"; "it rains"; "it is wet"]] "dev" =
  ([], inr ((λ r, {| guid := guid_of "dev" (default "" (r !! 0%nat));
                     text_a := default "" (r !! 1%nat);
                     text_b := r !! 2%nat;
                     label := last r |})
            <$> drop 1 [["index"; "s1"; "s2"]; ["4"; "it rains"; "it is wet"]])).
Proof.
  apply (qnli_label_is_last_column RteProcessor
           [["index"; "s1"; "s2"]; ["4"; "it rains"; "it is wet"]] "dev").
  - apply list_elem_of_further, list_elem_of_here.
  - repeat constructor.
Defined.

(** ** The registries *)

Section DictOf.
Context {V : Type}.
Implicit Types (items : list (string * V)) (m : gmap string V).

Lemma dict_fold_lookup items m k :
  foldl (λ m '(k, v), <[k := v]> m) m items !! k =
  match last (filter (λ kv, kv.1 = k) items) with
  | Some kv => Some kv.2
  | None => m !! k
  end.
Proof.
  revert m. induction items as [|[k' v'] items IH] using rev_ind; intros m; [done|].
  rewrite foldl_app, filter_app. simpl.
  destruct (decide (k' = k)) as [->|Hne].
  - rewrite filter_cons_True by done. rewrite filter_nil, last_snoc.
    by rewrite lookup_insert_eq.
  - rewrite filter_cons_False by done. rewrite filter_nil, app_nil_r.
    rewrite lookup_insert_ne by done. apply IH.
Qed.

Lemma dict_of_lookup_Some items k v : dict_of items !! k = Some v → (k, v) ∈ items.
Proof.
  unfold dict_of. rewrite dict_fold_lookup.
  destruct (last (filter (λ kv, kv.1 = k) items)) as [[k' v']|] eqn:E; [|done].
  simpl. intros [= ->]. apply last_Some in E as [l' E].
  assert ((k', v) ∈ filter (λ kv : string * V, kv.1 = k) items) as Hin.
  { rewrite E. apply elem_of_app. right. apply list_elem_of_here. }
  apply list_elem_of_filter in Hin as [Hk Hin]. simpl in Hk. by subst.
Qed.

Lemma dict_of_lookup_is_Some items k : is_Some (dict_of items !! k) ↔ k ∈ items.*1.
Proof.
  unfold dict_of. rewrite dict_fold_lookup, lookup_empty. split.
  - destruct (last (filter (λ kv, kv.1 = k) items)) as [[k' v']|] eqn:E;
      [|by intros [? ?]].
    intros _. apply last_Some in E as [l' E].
    assert ((k', v') ∈ filter (λ kv : string * V, kv.1 = k) items) as Hin.
    { rewrite E. apply elem_of_app. right. apply list_elem_of_here. }
    apply list_elem_of_filter in Hin as [Hk Hin]. simpl in Hk. subst.
    apply list_elem_of_fmap. by exists (k, v').
  - intros Hin. apply list_elem_of_fmap in Hin as ([k' v] & Hk & Hin).
    simpl in Hk. subst k.
    assert ((k', v) ∈ filter (λ kv : string * V, kv.1 = k') items) as Hf
      by by apply list_elem_of_filter.
    destruct (filter (λ kv : string * V, kv.1 = k') items) as [|x l] using rev_ind;
      [by apply elem_of_nil in Hf|].
    rewrite last_snoc. by eexists.
Qed.

End DictOf.

Ltac split_items H :=
  repeat (apply elem_of_cons in H as [H|H]; [injection H as -> ->|]);
  try (by apply elem_of_nil in H).

(** X19.  The three registries agree: a task has an output mode exactly when it
    has a processor; it has a number of labels exactly when it has a
    processor and is not ["mnli-mm"], for which a lookup raises [KeyError];
    and that number is the length of the processor's label list. *)
Theorem registries_agree (task : string) :
  (is_Some (output_modes !! task) ↔ is_Some (processors !! task)) ∧
  (is_Some (GLUE_TASKS_NUM_LABELS !! task) ↔
     is_Some (processors !! task) ∧ task ≠ "mnli-mm") ∧
  (∀ P n, processors !! task = Some P → GLUE_TASKS_NUM_LABELS !! task = Some n →
     length (get_labels P) = n).
Proof.
  split; [|split].
  - unfold output_modes, processors. by rewrite !dict_of_lookup_is_Some.
  - unfold GLUE_TASKS_NUM_LABELS, processors. rewrite !dict_of_lookup_is_Some.
    cbn [fmap list_fmap GLUE_TASKS_NUM_LABELS_items processors_items fst].
    rewrite !elem_of_cons, !elem_of_nil. split.
    + intros H. repeat destruct H as [->|H]; try done; (split; [|done]); tauto.
    + intros [H Hne]. repeat destruct H as [->|H]; try done; tauto.
  - intros P n HP Hn. apply dict_of_lookup_Some in HP. unfold processors_items in HP.
    split_items HP; vm_compute in Hn; by simplify_eq.
Qed.

(** X20.  Every registered task whose output mode is classification has a list
    of distinct label strings, so that its label map sends each label to its
    position; the one regression task, ["sts-b"], has the label list
    [[None]]. *)
Theorem registered_labels_distinct (task : string) (P : DataProcessor) :
  processors !! task = Some P →
  (output_modes !! task = Some "classification" →
     ∃ labels, get_labels P = Some <$> labels ∧ NoDup labels ∧
       ∀ i s, labels !! i = Some s → make_label_map labels !! s = Some i) ∧
  (output_modes !! task = Some "regression" → task = "sts-b" ∧ get_labels P = [None]).
Proof.
  intros HP. apply dict_of_lookup_Some in HP. unfold processors_items in HP.
  assert (∀ labels : list string, NoDup labels →
            ∃ labels', Some <$> labels = Some <$> labels' ∧ NoDup labels' ∧
              ∀ i s, labels' !! i = Some s → make_label_map labels' !! s = Some i) as Hl.
  { intros labels Hnd. exists labels. split; [done|]. split; [done|].
    intros i s. by apply make_label_map_index. }
  split_items HP; (split; intros Hm; vm_compute in Hm; try done);
    apply Hl; apply (bool_decide_unpack _); by vm_compute.
Qed.

Lemma registered_labels_distinct_witness :
  (output_modes !! "trec" = Some "classification" →
     ∃ labels, get_labels TrecProcessor = Some <$> labels ∧ NoDup labels ∧
       ∀ i s, labels !! i = Some s → make_label_map labels !! s = Some i) ∧
  (output_modes !! "trec" = Some "regression" →
     "trec" = "sts-b" ∧ get_labels TrecProcessor = [None]).
Proof. apply (registered_labels_distinct "trec" TrecProcessor). reflexivity. Defined.

(** ** The metrics *)

Section MetricsFacts.
Context {Arr : Type}.
Variable size : Arr → Z.
Variable mean_equal f1_score_macro matthews_corrcoef pearsonr spearmanr : Arr → Arr → float.

Local Abbreviation metrics :=
  (compute_metrics size mean_equal f1_score_macro matthews_corrcoef pearsonr spearmanr).

(** X21.  [compute_metrics] checks the lengths before it looks at the task: with
    arrays of different lengths it raises [AssertionError] for every task
    name.  With arrays of one length it raises [KeyError] exactly for the
    task names that have no processor, and returns a dict that is not empty
    for all the others. *)
Theorem compute_metrics_covers_processors (task_name : string) (preds labels : Arr) :
  (size preds ≠ size labels →
     metrics task_name preds labels = ([], inl AssertionError)) ∧
  (size preds = size labels →
     (processors !! task_name = None →
        metrics task_name preds labels = ([], inl (KeyError (Some task_name)))) ∧
     (is_Some (processors !! task_name) →
        ∃ out d, metrics task_name preds labels = (out, inr d) ∧ d ≠ [])).
Proof.
  split.
  - intros H. unfold compute_metrics.
    by destruct (Z.eqb_spec (size preds) (size labels)).
  - intros H. split.
    + intros Hnone. apply eq_None_not_Some in Hnone.
      unfold processors in Hnone. rewrite dict_of_lookup_is_Some in Hnone.
      cbn [fmap list_fmap processors_items fst] in Hnone.
      rewrite !not_elem_of_cons in Hnone.
      unfold compute_metrics. rewrite H, Z.eqb_refl. simpl negb. cbv iota.
      repeat (rewrite decide_False by tauto). done.
    + unfold processors. rewrite dict_of_lookup_is_Some.
      cbn [fmap list_fmap processors_items fst].
      rewrite !elem_of_cons, elem_of_nil. intros Hin.
      unfold compute_metrics. rewrite H, Z.eqb_refl. simpl negb. cbv iota.
      repeat destruct Hin as [->|Hin]; try done; simpl; by eexists _, _.
Qed.

End MetricsFacts.

(** ** The effects of a conversion *)

Section TraceFacts.
Context {EpaInfos : Type}.
Variable float_of_string : string → option float.
Variable label_list : list string.
Variable max_seq_length : Z.
Variable tokenizer : Tokenizer EpaInfos.
Variable output_mode : string.
Variable cfg : Config.
Variable epa_infos : option EpaInfos.

Local Abbreviation convert :=
  (convert_examples_to_features float_of_string label_list max_seq_length tokenizer
     output_mode cfg epa_infos).
Local Abbreviation body :=
  (convert_example float_of_string max_seq_length tokenizer output_mode cfg epa_infos).
Local Abbreviation encode := (encode_example max_seq_length tokenizer cfg epa_infos).
Local Abbreviation loop :=
  (convert_loop float_of_string max_seq_length tokenizer output_mode cfg epa_infos).







End TraceFacts.


(** ** From lines to features *)

(** X22.  The two halves fit for the single-text tasks: the examples that one
    of the eleven experiment processors makes of well-formed lines whose
    label column holds labels of [label_list] are converted, in
    classification mode, into one feature per line after the header. *)
Theorem exp_lines_convert {EpaInfos : Type} (float_of_string : string → option float)
    (label_list : list string) (max_seq_length : Z) (tokenizer : Tokenizer EpaInfos)
    (cfg : Config) (epa_infos : option EpaInfos) (P : DataProcessor)
    (lines : list (list string)) (set_type : string) :
  P ∈ exp_processors →
  Forall (λ r, (2 ≤ length r)%nat ∧ ∃ l, r !! 1%nat = Some l ∧ l ∈ label_list)
    (drop 1 lines) →
  (if sep_token_extra cfg then 3 else 2) ≤ max_seq_length →
  (∀ tokens, length (convert_tokens_to_ids tokenizer tokens) = length tokens) →
  (∀ text, length (tokenize_epa tokenizer text epa_infos).2
           = length (tokenize_epa tokenizer text epa_infos).1) →
  ∃ es fs,
    _create_examples P lines set_type = ([], inr es) ∧
    outcome (convert_examples_to_features float_of_string label_list max_seq_length
               tokenizer "classification" cfg epa_infos es) = inr fs ∧
    length fs = (length lines - 1)%nat.
Proof.
  intros HP Hall Hmax Hids Hepa. rewrite (exp_processors_loop P HP).
  set (make := λ (k : nat) (r : list string),
         {| guid := guid_of set_type (pretty (S k));
            text_a := default "" (r !! 0%nat); text_b := None;
            label := Some (default "" (r !! 1%nat)) |}).
  assert (exp_create_examples lines set_type = ([], inr (imap make (drop 1 lines)))) as Hes.
  { unfold exp_create_examples, enumerate. destruct lines as [|header rows]; [done|].
    cbn [enumerate_from]. rewrite exp_loop_header, exp_loop_well_formed; [done|done|].
    simpl in Hall. eapply Forall_impl; [exact Hall|]. by intros r [? _]. }
  assert (∃ fs, outcome (convert_examples_to_features float_of_string label_list
                           max_seq_length tokenizer "classification" cfg epa_infos
                           (imap make (drop 1 lines))) = inr fs) as [fs Hfs].
  { unfold convert_examples_to_features. apply outcome_loop_all.
    apply Forall_forall. intros [i example] Hin. simpl.
    apply enumerate_from_elem in Hin.
    apply elem_of_lookup_imap in Hin as (k & r & -> & Hr).
    rewrite Forall_forall in Hall.
    destruct (Hall r) as (Hlen & l & Hl & Hlab); [by eapply list_elem_of_lookup_2|].
    rewrite outcome_convert_example.
    destruct (tokenize_epa tokenizer (text_a (make k r)) epa_infos) as [ta ea] eqn:Et.
    destruct (encode_single_passes max_seq_length tokenizer cfg epa_infos
                (length (imap make (drop 1 lines))) i (make k r) ta ea) as [[[[[? ?] ?] ?] ?] ->];
      [done|done| |done|done|].
    { specialize (Hepa (text_a (make k r))). by rewrite Et in Hepa. }
    unfold resolve_label. rewrite decide_True by done. simpl label. rewrite Hl. simpl.
    destruct (make_label_map label_list !! l) as [j|] eqn:Ej;
      [simpl; destruct (Z.of_nat i <? 5); by eexists|].
    by apply make_label_map_None in Ej. }
  exists (imap make (drop 1 lines)), fs. split; [done|]. split; [done|].
  apply convert_examples_to_features_inr in Hfs as [-> _].
  by rewrite length_imap, length_drop.
Qed.

Lemma exp_lines_convert_witness :
  ∃ es fs,
    _create_examples TrecProcessor [["text"; "label"]; ["who is it"; "3"]; ["when"; "5"; "x"]]
      "dev" = ([], inr es) ∧
    outcome (convert_examples_to_features toy_float ["0"; "1"; "2"; "3"; "4"; "5"] 8
               whitespace_tokenizer "classification" default_config None es) = inr fs ∧
    length fs = (length [["text"; "label"]; ["who is it"; "3"]; ["when"; "5"; "x"]] - 1)%nat.
Proof.
  apply (exp_lines_convert toy_float ["0"; "1"; "2"; "3"; "4"; "5"] 8 whitespace_tokenizer
           default_config None TrecProcessor
           [["text"; "label"]; ["who is it"; "3"]; ["when"; "5"; "x"]] "dev").
  - apply trec_is_exp_processor.
  - repeat constructor; simpl; try lia; eexists; (split; [reflexivity|]); set_solver.
  - simpl. lia.
  - intros tokens. apply length_fmap.
  - intros text. apply length_fmap.
Defined.
